(** * Relay: configuration loader and process-lifecycle controller

    A shallow embedding of the two executable pieces of the repository:
    [configs.GetServerConfig] (configs/serverConfig.go) and [main]
    (main.go).  The process environment is a finite map from variable
    names to values, everything the program prints or logs is appended to
    a trace, and the two execution paths of [main] (the controlling path
    and the accept-loop goroutine) are interleaved by a list of labels. *)

From Stdlib Require Import ZArith Ascii.
From stdpp Require Import base option strings list gmap fin_maps.

Local Open Scope string_scope.
Local Open Scope Z_scope.
Local Open Scope list_scope.

(** ** Errors, log records and observable events *)

(** The error values the program inspects.  [http.ErrServerClosed] is the
    only one it compares against; every other error is opaque text.  A Go
    [error] that may be [nil] is an [option error]. *)
Inductive error : Type :=
  | ErrServerClosed
  | ErrOther (text : string).

#[global] Instance error_eq_dec : EqDecision error.
Proof. solve_decision. Defined.

(** [slog] levels. *)
Inductive Level : Type := LevelDebug | LevelInfo | LevelWarn | LevelError.

#[global] Instance Level_eq_dec : EqDecision Level.
Proof. solve_decision. Defined.

(** One [slog] record: level, message and the [slog.Any] attributes. *)
Record LogRecord : Type := mkLog {
  log_level : Level;
  log_msg   : string;
  log_attrs : list (string * error)
}.

#[global] Instance LogRecord_eq_dec : EqDecision LogRecord.
Proof. solve_decision. Defined.

Definition slog_Info (msg : string) : LogRecord := mkLog LevelInfo msg [].
Definition slog_Warn (msg : string) : LogRecord := mkLog LevelWarn msg [].
Definition slog_Error (msg : string) (attrs : list (string * error)) : LogRecord :=
  mkLog LevelError msg attrs.

(** What an observer of the process can see, in the order it happens. *)
Inductive Event : Type :=
  | EvStdout (text : string)            (* fmt.Println / fmt.Printf *)
  | EvLog (r : LogRecord)               (* a slog record *)
  | EvSignal                            (* SIGINT/SIGTERM cancels the context *)
  | EvListen (addr : string)            (* server.ListenAndServe is entered *)
  | EvListenReturn (err : option error) (* ... and returns *)
  | EvDrainBegin (deadline : Z)         (* server.Shutdown is entered *)
  | EvDrainEnd (err : option error)     (* ... and returns *)
  | EvPanic.                            (* nil pointer dereference *)

#[global] Instance Event_eq_dec : EqDecision Event.
Proof. solve_decision. Defined.

(** ** The world the loader runs in *)

(** The [.env] file in the working directory as [godotenv] sees it. *)
Inductive dotenv_file : Type :=
  | FileAbsent                            (* os.Open fails *)
  | FileMalformed                         (* the parser rejects it *)
  | FileVars (vars : gmap string string). (* parsed key=value pairs *)

Record World : Type := mkWorld {
  environ : gmap string string;  (* the process environment *)
  dotenv  : dotenv_file;
  trace   : list Event
}.

Definition emit (e : Event) (w : World) : World :=
  mkWorld (environ w) (dotenv w) (trace w ++ [e]).

Definition set_environ (env : gmap string string) (w : World) : World :=
  mkWorld env (dotenv w) (trace w).

(** [os.Getenv]: the value of the variable, the empty string when unset. *)
Definition os_Getenv (env : gmap string string) (key : string) : string :=
  default "" (env !! key).

(** Modelled from the spec: the loop of [godotenv.Load] over the pairs of
    a parsed file.  [godotenv.Load] belongs to the third-party
    module github.com/joho/godotenv, which is not part of this repository.
    The spec has the process environment "optionally seeded from a local
    override file" whose absence is reported and not fatal.  The model
    follows the library's contract for [Load] (as opposed to [Overload]):
    a file that cannot be opened or parsed yields an error and leaves the
    environment alone; otherwise the set of variable names present before
    the call is recorded and each pair of the file is exported only when
    its name is not in that set. *)
Definition loadFile (current vars : gmap string string) : gmap string string :=
  map_fold (λ key value env,
              if decide (is_Some (current !! key)) then env
              else <[key := value]> env)
           current vars.

(** Modelled from the spec: [godotenv.Load] with no argument, which reads
    the file named .env of the working directory (third-party, absent
    from the sources). *)
Definition godotenv_Load (w : World) : option error * World :=
  match dotenv w with
  | FileAbsent => (Some (ErrOther "open .env: no such file or directory"), w)
  | FileMalformed => (Some (ErrOther "unexpected character in variable name"), w)
  | FileVars vars => (None, set_environ (loadFile (environ w) vars) w)
  end.

(** ** configs/serverConfig.go *)

Record ServerConfig : Type := mkServerConfig {
  Port : string;
  Host : string;
  Env  : string
}.

#[global] Instance ServerConfig_eq_dec : EqDecision ServerConfig.
Proof. solve_decision. Defined.

Definition dotenv_warning : string :=
  "Error loading .env file, using system environment variables".

Definition GetServerConfig (w : World) : ServerConfig * World :=
  let '(err, w1) := godotenv_Load w in
  let w2 := match err with
            | Some _ => emit (EvLog (slog_Warn dotenv_warning)) w1
            | None => w1
            end in
  let serverConfig := {| Port := os_Getenv (environ w2) "PORT";
                         Host := os_Getenv (environ w2) "HOST";
                         Env  := os_Getenv (environ w2) "ENV" |} in
  (serverConfig, w2).

(** The configuration [main] works with when the process starts in the
    environment [env] with the override file [file]. *)
Definition initial_world (env : gmap string string) (file : dotenv_file) : World :=
  mkWorld env file [].

Definition loaded_config (env : gmap string string) (file : dotenv_file) : ServerConfig :=
  fst (GetServerConfig (initial_world env file)).

(** ** main.go: the HTTP surface *)

(** [time.Duration] counts nanoseconds. *)
Definition time_Second : Z := 1000000000.

Definition dquote : ascii := "034"%char.
Definition newline : string := String "010"%char "".
Definition quoted (s : string) : string :=
  String dquote (s +:+ String dquote "").

Record Request : Type := mkRequest {
  Method  : string;
  URLPath : string;
  ReqBody : string
}.

(** [http.ResponseWriter]: the first [Write] sends the header with status
    200 unless [WriteHeader] was called before. *)
Record ResponseWriter : Type := mkResponseWriter {
  wroteHeader : bool;
  statusCode  : Z;
  written     : string
}.

Definition http_StatusOK : Z := 200.
Definition http_StatusNotFound : Z := 404.
Definition http_StatusMethodNotAllowed : Z := 405.

Definition new_ResponseWriter : ResponseWriter := mkResponseWriter false 0 "".

Definition WriteHeader (code : Z) (w : ResponseWriter) : ResponseWriter :=
  if wroteHeader w then w else mkResponseWriter true code (written w).

Definition Write (bytes : string) (w : ResponseWriter) : ResponseWriter :=
  let w := WriteHeader http_StatusOK w in
  mkResponseWriter (wroteHeader w) (statusCode w) (written w +:+ bytes).

Definition HandlerFunc : Type := Request → ResponseWriter → ResponseWriter.

(** The part of the chi router that [main] uses: routes registered per
    method and exact pattern.  A method chi does not know is refused with
    405 before the path is looked at; otherwise an unknown path answers
    404 and a known path under another method answers 405. *)
Record Route : Type := mkRoute {
  route_method  : string;
  route_pattern : string;
  route_handler : HandlerFunc
}.

Definition Router : Type := list Route.

Definition chi_NewRouter : Router := [].

Definition chi_Get (pattern : string) (h : HandlerFunc) (r : Router) : Router :=
  r ++ [mkRoute "GET" pattern h].

Definition route_matches (req : Request) (rt : Route) : bool :=
  bool_decide (route_pattern rt = URLPath req) &&
  bool_decide (route_method rt = Method req).

(** The keys of chi's method map. *)
Definition chi_methods : list string :=
  ["CONNECT"; "DELETE"; "GET"; "HEAD"; "OPTIONS"; "PATCH"; "POST"; "PUT";
   "TRACE"].

Definition chi_ServeHTTP (r : Router) : HandlerFunc := λ req w,
  if negb (bool_decide (Method req ∈ chi_methods))
  then WriteHeader http_StatusMethodNotAllowed w
  else
    match List.find (route_matches req) r with
    | Some rt => route_handler rt req w
    | None =>
        if existsb (λ rt, bool_decide (route_pattern rt = URLPath req)) r
        then WriteHeader http_StatusMethodNotAllowed w
        else Write ("404 page not found" +:+ newline)
                   (WriteHeader http_StatusNotFound w)
    end.

(** What the client receives once the handler has returned: a handler
    that never wrote anything still produces a 200 header. *)
Record Response : Type := mkResponse {
  resp_status : Z;
  resp_body   : string
}.

Definition serve (h : HandlerFunc) (req : Request) : Response :=
  let w := h req new_ResponseWriter in
  mkResponse (if wroteHeader w then statusCode w else http_StatusOK) (written w).

(** The bytes of the raw string literal on line 206 of main.go. *)
Definition liveness_body : string :=
  "{ " +:+ quoted "message" +:+ ": " +:+ quoted "Relay Service Started" +:+ " }".

(** func(w http.ResponseWriter, r *http.Request) { w.Write(...) } *)
Definition liveness_handler : HandlerFunc := λ _ w, Write liveness_body w.

(** r := chi.NewRouter(); r.Get("/", ...) *)
Definition main_router : Router := chi_Get "/" liveness_handler chi_NewRouter.

(** JSON text with the insignificant white space (outside string
    literals) removed: two texts with the same compact form are the same
    JSON document. *)
Definition json_ws (c : ascii) : bool :=
  (c =? " ")%char || (c =? "009")%char || (c =? "010")%char || (c =? "013")%char.

Fixpoint json_compact (in_str esc : bool) (s : string) {struct s} : string :=
  match s with
  | EmptyString => EmptyString
  | String c rest =>
      if in_str then
        String c (json_compact (esc || negb (c =? dquote)%char)
                               (negb esc && (c =? "\")%char) rest)
      else if json_ws c then json_compact false false rest
      else String c (json_compact (c =? dquote)%char false rest)
  end.

(** The body as the spec writes it. *)
Definition spec_liveness_json : string :=
  "{" +:+ quoted "message" +:+ ": " +:+ quoted "Relay Service Started" +:+ "}".

(** ** main.go: the process *)

Record Server : Type := mkServer {
  Addr         : string;
  Handler      : Router;
  ReadTimeout  : Z;
  WriteTimeout : Z;
  IdleTimeout  : Z
}.

(** Lines 213-224: [var server *http.Server] stays nil ([None]) unless
    the environment is the literal "development". *)
Definition new_server (serverConfig : ServerConfig) (r : Router) : option Server :=
  if decide (Env serverConfig = "development") then
    Some {| Addr         := Port serverConfig;
            Handler      := r;
            ReadTimeout  := 10 * time_Second;
            WriteTimeout := 10 * time_Second;
            IdleTimeout  := 60 * time_Second |}
  else None.

(** Where the controlling path stands (line numbers of main.go). *)
Inductive MainPC : Type :=
  | MWait       (* 244: <-ctx.Done() *)
  | MLogSignal  (* 247: slog.Info *)
  | MShutdown   (* 250-254: WithTimeout, server.Shutdown is called *)
  | MDraining   (* inside server.Shutdown *)
  | MCheckErr   (* 255-260: if err != nil { slog.Error } *)
  | MLogExit    (* 262: slog.Info *)
  | MReturn.    (* 263: main returns *)

(** Where the accept-loop goroutine stands. *)
Inductive GoPC : Type :=
  | GPrintf     (* 232: fmt.Printf with server.Addr *)
  | GListen     (* 233: server.ListenAndServe is called *)
  | GServing    (* inside server.ListenAndServe *)
  | GCheckErr   (* 235-240: if err != nil && err != http.ErrServerClosed *)
  | GDone.      (* the goroutine has returned *)

Inductive Status : Type :=
  | Running
  | Exited (code : Z).

#[global] Instance MainPC_eq_dec : EqDecision MainPC.
Proof. solve_decision. Defined.
#[global] Instance GoPC_eq_dec : EqDecision GoPC.
Proof. solve_decision. Defined.
#[global] Instance Status_eq_dec : EqDecision Status.
Proof. solve_decision. Defined.

Record Proc : Type := mkProc {
  world    : World;
  server   : option Server;   (* the variable [server]; None is nil *)
  ctx_done : bool;            (* the NotifyContext context is cancelled *)
  main_pc  : MainPC;
  main_err : option error;    (* [err] of line 254 *)
  go_pc    : GoPC;
  go_err   : option error;    (* [err] of line 233 *)
  status   : Status
}.

Definition proc_trace (p : Proc) : list Event := trace (world p).

Definition p_emit (e : Event) (p : Proc) : Proc :=
  mkProc (emit e (world p)) (server p) (ctx_done p) (main_pc p) (main_err p)
         (go_pc p) (go_err p) (status p).
Definition set_done (p : Proc) : Proc :=
  mkProc (world p) (server p) true (main_pc p) (main_err p)
         (go_pc p) (go_err p) (status p).
Definition set_main (pc : MainPC) (p : Proc) : Proc :=
  mkProc (world p) (server p) (ctx_done p) pc (main_err p)
         (go_pc p) (go_err p) (status p).
Definition set_main_err (err : option error) (p : Proc) : Proc :=
  mkProc (world p) (server p) (ctx_done p) (main_pc p) err
         (go_pc p) (go_err p) (status p).
Definition set_go (pc : GoPC) (p : Proc) : Proc :=
  mkProc (world p) (server p) (ctx_done p) (main_pc p) (main_err p)
         pc (go_err p) (status p).
Definition set_go_err (err : option error) (p : Proc) : Proc :=
  mkProc (world p) (server p) (ctx_done p) (main_pc p) (main_err p)
         (go_pc p) err (status p).
Definition set_status (st : Status) (p : Proc) : Proc :=
  mkProc (world p) (server p) (ctx_done p) (main_pc p) (main_err p)
         (go_pc p) (go_err p) st.

(** An unrecovered panic in any goroutine ends the whole process with
    exit code 2. *)
Definition panic_nil (p : Proc) : Proc := set_status (Exited 2) (p_emit EvPanic p).

Definition shutdown_msg : string :=
  "Shutdown Signal received, shutting down the backend server gracefully!".
Definition forced_msg : string := "Server forced to shutdown:".
Definition exited_msg : string := "Server Exited!".
Definition accept_msg : string := "Error while starting the Server:".

Definition shutdown_log : Event := EvLog (slog_Info shutdown_msg).
Definition exited_log : Event := EvLog (slog_Info exited_msg).
Definition forced_log (err : error) : Event :=
  EvLog (slog_Error forced_msg [("Error", err)]).
Definition accept_log (err : error) : Event :=
  EvLog (slog_Error accept_msg [("Error:", err)]).

(** context.WithTimeout(context.Background(), 5*time.Second) *)
Definition shutdown_timeout : Z := 5 * time_Second.

(** Lines 202-228 and the [go] statement of line 231, run by the
    controlling path before any other path exists. *)
Definition main_start (env : gmap string string) (file : dotenv_file) : Proc :=
  let w := emit (EvStdout ("Relay starts!" +:+ newline)) (initial_world env file) in
  let r := main_router in
  let '(serverConfig, w) := GetServerConfig w in
  let server := new_server serverConfig r in
  {| world := w; server := server; ctx_done := false;
     main_pc := MWait; main_err := None;
     go_pc := GPrintf; go_err := None;
     status := Running |}.

(** One statement of the controlling path, lines 244-263. *)
Definition step_main (p : Proc) : Proc :=
  match main_pc p with
  | MWait => if ctx_done p then set_main MLogSignal p else p
  | MLogSignal => set_main MShutdown (p_emit shutdown_log p)
  | MShutdown =>
      match server p with
      | None => panic_nil p
      | Some _ => set_main MDraining (p_emit (EvDrainBegin shutdown_timeout) p)
      end
  | MDraining => p
  | MCheckErr =>
      set_main MLogExit
        match main_err p with
        | Some err => p_emit (forced_log err) p
        | None => p
        end
  | MLogExit => set_main MReturn (p_emit exited_log p)
  | MReturn => set_status (Exited 0) p
  end.

(** One statement of the accept-loop goroutine, lines 232-240. *)
Definition step_go (p : Proc) : Proc :=
  match go_pc p with
  | GPrintf =>
      match server p with
      | None => panic_nil p
      | Some srv =>
          set_go GListen
            (p_emit (EvStdout ("Relay Backend Server listening on PORT"
                               +:+ Addr srv +:+ newline)) p)
      end
  | GListen =>
      match server p with
      | None => panic_nil p
      | Some srv => set_go GServing (p_emit (EvListen (Addr srv)) p)
      end
  | GServing => p
  | GCheckErr =>
      set_go GDone
        match go_err p with
        | Some err =>
            if decide (err = ErrServerClosed) then p
            else p_emit (accept_log err) p
        | None => p
        end
  | GDone => p
  end.

(** What can happen next.  The two blocking library calls return when
    the environment says so, with the result it chooses. *)
Inductive Label : Type :=
  | LSignal                                (* the OS delivers SIGINT or SIGTERM *)
  | LMain                                  (* the controlling path runs a statement *)
  | LGo                                    (* the goroutine runs a statement *)
  | LListenReturns (err : option error)    (* ListenAndServe returns *)
  | LShutdownReturns (err : option error). (* Shutdown returns *)

Definition step (l : Label) (p : Proc) : Proc :=
  match status p with
  | Exited _ => p
  | Running =>
      match l with
      | LSignal => if ctx_done p then p else set_done (p_emit EvSignal p)
      | LMain => step_main p
      | LGo => step_go p
      | LListenReturns err =>
          match go_pc p with
          | GServing => set_go GCheckErr (set_go_err err (p_emit (EvListenReturn err) p))
          | _ => p
          end
      | LShutdownReturns err =>
          match main_pc p with
          | MDraining => set_main MCheckErr (set_main_err err (p_emit (EvDrainEnd err) p))
          | _ => p
          end
      end
  end.

Definition exec (sched : list Label) (p : Proc) : Proc :=
  foldl (λ q l, step l q) p sched.

(** A run of the program: start-up followed by a schedule. *)
Definition run (env : gmap string string) (file : dotenv_file)
    (sched : list Label) : Proc :=
  exec sched (main_start env file).

(** ** Reading traces *)

(** Every occurrence of [b] has an occurrence of [a] strictly before it. *)
Definition precedes (a b : Event) (tr : list Event) : Prop :=
  ∀ pre post, tr = pre ++ b :: post → a ∈ pre.

Definition occurrences (e : Event) (tr : list Event) : nat :=
  length (List.filter (λ x, bool_decide (x = e)) tr).

(** The events of the shutdown protocol: the signal, the drain and the
    three records the controlling path logs. *)
Definition is_ctrl (e : Event) : bool :=
  match e with
  | EvSignal | EvDrainBegin _ | EvDrainEnd _ => true
  | EvLog r =>
      bool_decide (log_msg r = shutdown_msg ∨ log_msg r = forced_msg
                   ∨ log_msg r = exited_msg)
  | _ => false
  end.

Definition ctrl_view (tr : list Event) : list Event := List.filter is_ctrl tr.

Definition forced_logs (err : option error) : list Event :=
  match err with
  | Some e => [forced_log e]
  | None => []
  end.

(** The shutdown protocol in full, for a drain that returned [err]. *)
Definition ctrl_sequence (err : option error) : list Event :=
  [EvSignal; shutdown_log; EvDrainBegin shutdown_timeout; EvDrainEnd err]
  ++ forced_logs err ++ [exited_log].

(** The part of the protocol a process in state [p] has been through. *)
Definition ctrl_so_far (p : Proc) : list Event :=
  (if ctx_done p then [EvSignal] else []) ++
  match main_pc p with
  | MWait | MLogSignal => []
  | MShutdown => [shutdown_log]
  | MDraining => [shutdown_log; EvDrainBegin shutdown_timeout]
  | MCheckErr =>
      [shutdown_log; EvDrainBegin shutdown_timeout; EvDrainEnd (main_err p)]
  | MLogExit =>
      [shutdown_log; EvDrainBegin shutdown_timeout; EvDrainEnd (main_err p)]
      ++ forced_logs (main_err p)
  | MReturn =>
      [shutdown_log; EvDrainBegin shutdown_timeout; EvDrainEnd (main_err p)]
      ++ forced_logs (main_err p) ++ [exited_log]
  end.

(** The schedule that takes the controlling path from wherever it stands
    to its return, the drain answering [err]. *)
Definition main_to_end (err : option error) : list Label :=
  [LMain; LMain; LMain; LShutdownReturns err; LMain; LMain; LMain].

(** Sample inputs *)
Definition dev_env : gmap string string :=
  <["ENV" := "development"]> (<["PORT" := ":4000"]> ∅).
Definition prod_env : gmap string string :=
  <["ENV" := "production"]> (<["PORT" := ":4000"]> ∅).
Definition sample_file : dotenv_file :=
  FileVars (<["PORT" := ":3000"]> (<["HOST" := "localhost"]> (<["ENV" := "development"]> ∅))).

(** A complete run in the development environment, the drain timing out. *)
Definition sample_schedule : list Label :=
  [LGo; LGo; LSignal; LMain; LMain; LMain;
   LListenReturns (Some ErrServerClosed); LGo;
   LShutdownReturns (Some (ErrOther "context deadline exceeded"));
   LMain; LMain; LMain].

(** A listener that cannot bind its port. *)
Definition bind_error : error :=
  ErrOther "listen tcp :4000: bind: address already in use".

Definition bind_schedule : list Label :=
  [LGo; LGo; LListenReturns (Some bind_error)].

(** The claim that every run ends with exit code 0. *)
Definition exits_zero_always : Prop :=
  ∀ env file sched code, status (run env file sched) = Exited code → code = 0.

(** The environment the three [os.Getenv] calls read. *)
Definition environ_after_load (w : World) : gmap string string :=
  match dotenv w with
  | FileVars vars => environ w ∪ vars
  | _ => environ w
  end.

(** The events of the accept-loop goroutine that concern the listener. *)
Definition is_go (e : Event) : bool :=
  match e with
  | EvListen _ | EvListenReturn _ => true
  | EvLog r => bool_decide (log_msg r = accept_msg)
  | _ => false
  end.

Definition go_view (tr : list Event) : list Event := List.filter is_go tr.

Definition accept_logs (err : option error) : list Event :=
  match err with
  | Some e => if decide (e = ErrServerClosed) then [] else [accept_log e]
  | None => []
  end.

Definition server_addr (p : Proc) : string :=
  match server p with
  | Some srv => Addr srv
  | None => ""
  end.

(** The listener events a process in state [p] has been through. *)
Definition go_so_far (p : Proc) : list Event :=
  match go_pc p with
  | GPrintf | GListen => []
  | GServing => [EvListen (server_addr p)]
  | GCheckErr => [EvListen (server_addr p); EvListenReturn (go_err p)]
  | GDone =>
      [EvListen (server_addr p); EvListenReturn (go_err p)]
      ++ accept_logs (go_err p)
  end.

(** What holds of every state a run can reach. *)
Record inv (p : Proc) : Prop := mkInv {
  inv_ctrl : ctrl_view (proc_trace p) = ctrl_so_far p;
  inv_go : go_view (proc_trace p) = go_so_far p;
  inv_woken : main_pc p ≠ MWait → ctx_done p = true;
  inv_exit : ∀ code, status p = Exited code →
      (code = 0 ∧ main_pc p = MReturn) ∨ (code = 2 ∧ server p = None);
  inv_panic : EvPanic ∈ proc_trace p ↔ status p = Exited 2;
  inv_main_server : main_pc p ∈ [MDraining; MCheckErr; MLogExit; MReturn] →
      is_Some (server p);
  inv_go_server : go_pc p ≠ GPrintf → is_Some (server p)
}.

(** ** Further notions used to describe the code *)

(** Where a field of the configuration comes from: the process
    environment if the variable is set there, else the override file if
    it was read and has the variable, else the empty string. *)
Definition config_value (w : World) (key : string) : string :=
  match environ w !! key with
  | Some v => v
  | None =>
      match dotenv w with
      | FileVars vars => default "" (vars !! key)
      | _ => ""
      end
  end.

(** What the loader logs. *)
Definition load_warnings (file : dotenv_file) : list Event :=
  match file with
  | FileVars _ => []
  | _ => [EvLog (slog_Warn dotenv_warning)]
  end.

(** The same process in another process environment. *)
Definition set_proc_environ (env : gmap string string) (p : Proc) : Proc :=
  mkProc (set_environ env (world p)) (server p) (ctx_done p) (main_pc p)
         (main_err p) (go_pc p) (go_err p) (status p).

(** Labels that are not moves of the accept-loop goroutine. *)
Definition is_main_label (l : Label) : bool :=
  match l with
  | LGo | LListenReturns _ => false
  | _ => true
  end.

(** What the controlling path reads and writes. *)
Definition ctrl_state (p : Proc)
    : Status * option Server * bool * MainPC * option error :=
  (status p, server p, ctx_done p, main_pc p, main_err p).

Definition is_signal (l : Label) : bool :=
  match l with
  | LSignal => true
  | _ => false
  end.

(** The line the goroutine prints before it listens (line 232). *)
Definition listening_line (addr : string) : Event :=
  EvStdout ("Relay Backend Server listening on PORT" +:+ addr +:+ newline).

(** How far the controlling path has come. *)
Definition main_rank (pc : MainPC) : nat :=
  match pc with
  | MWait => 0
  | MLogSignal => 1
  | MShutdown => 2
  | MDraining => 3
  | MCheckErr => 4
  | MLogExit => 5
  | MReturn => 6
  end.

(** The number of statements a schedule gives the controlling path. *)
Definition main_moves (sched : list Label) : nat :=
  length (List.filter (λ l, match l with LMain => true | _ => false end) sched).

(** A process with a server whose controlling path has been woken up and
    has not been stopped before the drain. *)
Definition woken (p : Proc) : Prop :=
  is_Some (server p) ∧ ctx_done p = true ∧
  (status p = Running ∨ (3 ≤ main_rank (main_pc p))%nat).

(** The claim that after a signal the drain is invoked, in the weakest
    form: in some continuation of the run. *)
Definition signal_always_drains : Prop :=
  ∀ env file sched,
    EvSignal ∈ proc_trace (run env file sched) →
    ∃ more, EvDrainBegin shutdown_timeout
              ∈ proc_trace (run env file (sched ++ more)).

(** * Properties *)

(** ** The configuration loader *)

Lemma loadFile_lookup (current vars : gmap string string) (key : string) :
  loadFile current vars !! key = (current ∪ vars) !! key.
Proof.
  unfold loadFile.
  induction vars as [|k x vars Hk Hfold IH] using map_first_key_ind.
  - by rewrite map_fold_empty, (right_id_L ∅ (∪)).
  - rewrite map_fold_insert_first_key by done.
    rewrite lookup_union in *.
    destruct (decide (k = key)) as [->|Hne].
    + rewrite lookup_insert_eq. rewrite Hk in IH.
      case_decide as Hset.
      * destruct Hset as [v Hv]. rewrite IH. by rewrite Hv.
      * rewrite lookup_insert_eq.
        destruct (current !! key) eqn:E; [by destruct Hset; eauto|done].
    + rewrite lookup_insert_ne by done.
      case_decide; [done|]. by rewrite lookup_insert_ne.
Qed.

Lemma loadFile_union (current vars : gmap string string) :
  loadFile current vars = current ∪ vars.
Proof. apply map_eq. intros key. apply loadFile_lookup. Qed.

Lemma GetServerConfig_environ (w : World) :
  environ (snd (GetServerConfig w)) = environ_after_load w.
Proof.
  unfold GetServerConfig, godotenv_Load, environ_after_load.
  destruct (dotenv w); simpl; try done. apply loadFile_union.
Qed.

Lemma GetServerConfig_dotenv (w : World) :
  dotenv (snd (GetServerConfig w)) = dotenv w.
Proof.
  unfold GetServerConfig, godotenv_Load.
  destruct (dotenv w) eqn:Hfile; simpl; done.
Qed.

Lemma GetServerConfig_fields (w : World) :
  fst (GetServerConfig w) =
    {| Port := os_Getenv (environ_after_load w) "PORT";
       Host := os_Getenv (environ_after_load w) "HOST";
       Env  := os_Getenv (environ_after_load w) "ENV" |}.
Proof.
  unfold GetServerConfig, godotenv_Load, environ_after_load.
  destruct (dotenv w); simpl; try done. by rewrite loadFile_union.
Qed.

Lemma environ_after_load_set (w : World) (key v : string) :
  environ w !! key = Some v → environ_after_load w !! key = Some v.
Proof.
  intros Hset. unfold environ_after_load.
  destruct (dotenv w); try done. by apply lookup_union_Some_l.
Qed.

Lemma environ_after_load_unset (w : World) (key : string) :
  environ w !! key = None →
  environ_after_load w !! key =
    match dotenv w with FileVars vars => vars !! key | _ => None end.
Proof.
  intros Hunset. unfold environ_after_load.
  destruct (dotenv w); try done. by rewrite lookup_union_r.
Qed.

(** C6.  The loader is a total function into [ServerConfig] with no
    error result and no validation.  On every world it returns the
    configuration whose three fields are what [os.Getenv] yields for
    PORT, HOST and ENV in the environment left by the load of the
    override file (the process environment it was called in, plus the
    pairs of a file that was read for the variables that were unset):
    the stored string unchanged when the variable is set, the empty
    string when it is not.  It leaves that environment behind, keeps the
    file, and adds to the trace the warning of a failed load and nothing
    else. *)
Theorem GetServerConfig_raw_values (w : World) :
  GetServerConfig w =
    ({| Port := os_Getenv (environ_after_load w) "PORT";
        Host := os_Getenv (environ_after_load w) "HOST";
        Env  := os_Getenv (environ_after_load w) "ENV" |},
     mkWorld (environ_after_load w) (dotenv w)
             (trace w ++ load_warnings (dotenv w))) ∧
  environ_after_load w = environ (snd (godotenv_Load w)) ∧
  ((∀ vars, dotenv w ≠ FileVars vars) → environ_after_load w = environ w) ∧
  (∀ key, os_Getenv (environ_after_load w) key =
            match environ_after_load w !! key with Some v => v | None => "" end) ∧
  Port (fst (GetServerConfig w)) = os_Getenv (environ (snd (GetServerConfig w))) "PORT" ∧
  Host (fst (GetServerConfig w)) = os_Getenv (environ (snd (GetServerConfig w))) "HOST" ∧
  Env (fst (GetServerConfig w)) = os_Getenv (environ (snd (GetServerConfig w))) "ENV".
Proof.
  assert (Hload : environ_after_load w = environ (snd (godotenv_Load w))).
  { unfold environ_after_load, godotenv_Load.
    destruct (dotenv w); simpl; try done. by rewrite loadFile_union. }
  assert (Heq : GetServerConfig w =
    ({| Port := os_Getenv (environ_after_load w) "PORT";
        Host := os_Getenv (environ_after_load w) "HOST";
        Env  := os_Getenv (environ_after_load w) "ENV" |},
     mkWorld (environ_after_load w) (dotenv w)
             (trace w ++ load_warnings (dotenv w)))).
  { rewrite (surjective_pairing (GetServerConfig w)).
    rewrite GetServerConfig_fields. f_equal.
    pose proof (GetServerConfig_environ w) as He.
    pose proof (GetServerConfig_dotenv w) as Hd.
    assert (Ht : trace (snd (GetServerConfig w))
                 = trace w ++ load_warnings (dotenv w)).
    { unfold GetServerConfig, godotenv_Load, load_warnings.
      destruct (dotenv w); simpl; by rewrite ?app_nil_r. }
    destruct (snd (GetServerConfig w)). simpl in *. by subst. }
  split; [exact Heq|]. split; [exact Hload|]. split.
  { intros Hno. unfold environ_after_load.
    destruct (dotenv w) as [| |vars]; try done. by destruct (Hno vars). }
  split.
  { intros key. unfold os_Getenv. by destruct (_ !! key). }
  by rewrite Heq.
Qed.

Lemma GetServerConfig_raw_values_witness :
  environ_after_load (mkWorld prod_env FileMalformed []) = prod_env.
Proof.
  apply (GetServerConfig_raw_values (mkWorld prod_env FileMalformed [])).
  intros vars. simpl. discriminate.
Defined.

(** Nothing is validated: a port that is no port and an environment
    nobody knows are returned as they are, an unset host as the empty
    string. *)
Example GetServerConfig_no_validation :
  loaded_config (<["ENV" := "staging"]> (<["PORT" := "not a port"]> ∅))
                FileMalformed
  = {| Port := "not a port"; Host := ""; Env := "staging" |}.
Proof. vm_compute. reflexivity. Qed.

(** C7.  With the override file absent the loader returns the
    configuration read from the process environment alone, leaves the
    environment as it was and appends exactly one record, at warning
    level, to the trace. *)
Theorem GetServerConfig_file_absent (w : World) :
  dotenv w = FileAbsent →
  GetServerConfig w =
    ({| Port := os_Getenv (environ w) "PORT";
        Host := os_Getenv (environ w) "HOST";
        Env  := os_Getenv (environ w) "ENV" |},
     mkWorld (environ w) FileAbsent
             (trace w ++ [EvLog (mkLog LevelWarn dotenv_warning [])])).
Proof.
  intros Habs. unfold GetServerConfig, godotenv_Load. rewrite Habs. simpl.
  unfold emit. by rewrite Habs.
Qed.

Lemma GetServerConfig_file_absent_witness :
  GetServerConfig (mkWorld dev_env FileAbsent []) =
    ({| Port := ":4000"; Host := ""; Env := "development" |},
     mkWorld dev_env FileAbsent [EvLog (mkLog LevelWarn dotenv_warning [])]).
Proof.
  exact (GetServerConfig_file_absent (mkWorld dev_env FileAbsent []) eq_refl).
Defined.

(** C8.  Two loads against the same process environment and the same
    override file return configurations that agree on every field,
    whatever else differs between the two worlds; in particular a second
    load that follows a first one returns what the first returned and
    leaves the environment as the first left it. *)
Theorem GetServerConfig_idempotent (w1 w2 : World) :
  environ w1 = environ w2 →
  dotenv w1 = dotenv w2 →
  fst (GetServerConfig w1) = fst (GetServerConfig w2) ∧
  fst (GetServerConfig (snd (GetServerConfig w1))) = fst (GetServerConfig w2) ∧
  environ (snd (GetServerConfig (snd (GetServerConfig w1)))) =
    environ (snd (GetServerConfig w2)).
Proof.
  intros Henv Hfile.
  assert (Hsame : environ_after_load w1 = environ_after_load w2).
  { unfold environ_after_load. by rewrite Henv, Hfile. }
  assert (Hagain : environ_after_load (snd (GetServerConfig w1))
                   = environ_after_load w2).
  { rewrite <- Hsame. unfold environ_after_load at 1.
    rewrite GetServerConfig_dotenv, GetServerConfig_environ.
    unfold environ_after_load. destruct (dotenv w1); try done.
    rewrite <- (assoc_L (∪)). by rewrite (idemp_L (∪)). }
  rewrite !GetServerConfig_environ, !GetServerConfig_fields.
  by rewrite Hsame, Hagain.
Qed.

Lemma GetServerConfig_idempotent_witness :
  let w1 := mkWorld prod_env sample_file [] in
  let w2 := mkWorld prod_env sample_file [EvStdout "later"] in
  fst (GetServerConfig w1) = fst (GetServerConfig w2) ∧
  fst (GetServerConfig (snd (GetServerConfig w1))) = fst (GetServerConfig w2) ∧
  environ (snd (GetServerConfig (snd (GetServerConfig w1)))) =
    environ (snd (GetServerConfig w2)).
Proof.
  exact (GetServerConfig_idempotent
           (mkWorld prod_env sample_file [])
           (mkWorld prod_env sample_file [EvStdout "later"]) eq_refl eq_refl).
Defined.

(** C10.  A variable that is set in the process environment when the
    loader starts keeps its value through the load of the override file,
    so for PORT, HOST and ENV the field of the returned configuration is
    that value; the file only decides variables that were unset. *)
Theorem GetServerConfig_existing_wins (w : World) (key v : string) :
  environ w !! key = Some v →
  environ (snd (GetServerConfig w)) !! key = Some v ∧
  (key = "PORT" → Port (fst (GetServerConfig w)) = v) ∧
  (key = "HOST" → Host (fst (GetServerConfig w)) = v) ∧
  (key = "ENV" → Env (fst (GetServerConfig w)) = v) ∧
  (∀ other, environ (snd (GetServerConfig w)) !! other ≠ environ w !! other →
            environ w !! other = None).
Proof.
  intros Hset.
  rewrite GetServerConfig_environ, GetServerConfig_fields. simpl.
  pose proof (environ_after_load_set w key v Hset) as Hkept.
  repeat split.
  - done.
  - intros ->. unfold os_Getenv. by rewrite Hkept.
  - intros ->. unfold os_Getenv. by rewrite Hkept.
  - intros ->. unfold os_Getenv. by rewrite Hkept.
  - intros other Hchanged.
    destruct (environ w !! other) as [u|] eqn:Hother; [|done].
    by rewrite (environ_after_load_set w other u Hother) in Hchanged.
Qed.

Lemma GetServerConfig_existing_wins_witness :
  Port (fst (GetServerConfig (mkWorld prod_env sample_file []))) = ":4000" ∧
  Env (fst (GetServerConfig (mkWorld prod_env sample_file []))) = "production" ∧
  Host (fst (GetServerConfig (mkWorld prod_env sample_file []))) = "localhost".
Proof.
  split; [|split].
  - apply (GetServerConfig_existing_wins
             (mkWorld prod_env sample_file []) "PORT" ":4000");
      [vm_compute; reflexivity | reflexivity].
  - apply (GetServerConfig_existing_wins
             (mkWorld prod_env sample_file []) "ENV" "production");
      [vm_compute; reflexivity | reflexivity].
  - vm_compute; reflexivity.
Defined.

(** ** Runs of the process *)

Lemma filter_snoc (f : Event → bool) (tr : list Event) (e : Event) :
  List.filter f (tr ++ [e]) = List.filter f tr ++ (if f e then [e] else []).
Proof. by rewrite List.filter_app. Qed.

Lemma is_ctrl_shutdown_log : is_ctrl shutdown_log = true.
Proof. reflexivity. Qed.
Lemma is_ctrl_exited_log : is_ctrl exited_log = true.
Proof. reflexivity. Qed.
Lemma is_ctrl_forced_log (e : error) : is_ctrl (forced_log e) = true.
Proof. reflexivity. Qed.
Lemma is_ctrl_accept_log (e : error) : is_ctrl (accept_log e) = false.
Proof. reflexivity. Qed.
Lemma is_go_shutdown_log : is_go shutdown_log = false.
Proof. reflexivity. Qed.
Lemma is_go_exited_log : is_go exited_log = false.
Proof. reflexivity. Qed.
Lemma is_go_forced_log (e : error) : is_go (forced_log e) = false.
Proof. reflexivity. Qed.
Lemma is_go_accept_log (e : error) : is_go (accept_log e) = true.
Proof. reflexivity. Qed.

Create Rewrite HintDb views.
#[local] Hint Rewrite filter_snoc is_ctrl_shutdown_log is_ctrl_exited_log
  is_ctrl_forced_log is_ctrl_accept_log is_go_shutdown_log is_go_exited_log
  is_go_forced_log is_go_accept_log : views.

(** Case analysis on membership in an explicit list. *)
Ltac elem_cases H :=
  repeat (apply elem_of_cons in H as [H|H]; [try discriminate H|]);
  try (apply elem_of_nil in H; destruct H).

Lemma exec_snoc (sched : list Label) (l : Label) (p : Proc) :
  exec (sched ++ [l]) p = step l (exec sched p).
Proof. unfold exec. by rewrite foldl_app. Qed.

Lemma main_start_trace (env : gmap string string) (file : dotenv_file) :
  proc_trace (main_start env file) =
    EvStdout ("Relay starts!" +:+ newline) ::
    match file with
    | FileVars _ => []
    | _ => [EvLog (slog_Warn dotenv_warning)]
    end.
Proof. unfold main_start, GetServerConfig, godotenv_Load. by destruct file. Qed.

Lemma main_start_server (env : gmap string string) (file : dotenv_file) :
  server (main_start env file) = new_server (loaded_config env file) main_router.
Proof.
  unfold main_start, loaded_config, GetServerConfig, godotenv_Load.
  by destruct file.
Qed.

Lemma main_start_inv (env : gmap string string) (file : dotenv_file) :
  inv (main_start env file).
Proof.
  pose proof (main_start_trace env file) as Htr.
  assert (Hst : status (main_start env file) = Running
                ∧ main_pc (main_start env file) = MWait
                ∧ go_pc (main_start env file) = GPrintf
                ∧ ctx_done (main_start env file) = false).
  { unfold main_start, GetServerConfig, godotenv_Load. by destruct file. }
  destruct Hst as (Hst & Hm & Hg & Hd).
  constructor; unfold ctrl_so_far, go_so_far; rewrite ?Htr, ?Hst, ?Hm, ?Hg, ?Hd.
  - by destruct file.
  - by destruct file.
  - done.
  - done.
  - split; [|done]. intros Hin. destruct file; elem_cases Hin.
  - intros Hin. elem_cases Hin.
  - done.
Qed.

Arguments is_ctrl : simpl never.
Arguments is_go : simpl never.

Ltac unfold_views :=
  unfold proc_trace, ctrl_view, go_view, ctrl_so_far, go_so_far, server_addr,
    panic_nil, forced_logs, accept_logs in *.

Ltac close_inv Hc Hg Hp Hm Hgs :=
  constructor; unfold_views; simpl;
  autorewrite with views; simpl;
  rewrite ?Hc, ?Hg, ?app_nil_r, <- ?app_assoc; simpl;
  repeat case_decide; try congruence;
  try done;
  try (intros ? [= <-]; by auto);
  try (rewrite ?elem_of_app, ?list_elem_of_singleton, Hp; intuition (try discriminate; try congruence); fail);
  try (intros; first [ apply Hm; by repeat constructor | apply Hgs; done | by eauto ]);
  try (intros Hin; elem_cases Hin; eauto).

Lemma step_inv (l : Label) (p : Proc) : inv p → inv (step l p).
Proof.
  destruct p as [[env file tr] srv done mpc merr gpc gerr st].
  intros [Hc Hg Hw Hx Hp Hm Hgs].
  unfold_views. simpl in *.
  unfold step; simpl. destruct st as [|code]; [|by constructor].
  destruct l; simpl.
  - (* signal *)
    destruct done; [by constructor|].
    assert (mpc = MWait) as ->.
    { destruct mpc; try done; by discriminate Hw. }
    close_inv Hc Hg Hp Hm Hgs.
  - (* the controlling path *)
    unfold step_main; simpl.
    destruct mpc; simpl.
    + destruct done; close_inv Hc Hg Hp Hm Hgs.
    + rewrite Hw in * by done. close_inv Hc Hg Hp Hm Hgs.
    + rewrite Hw in * by done. destruct srv; close_inv Hc Hg Hp Hm Hgs.
    + close_inv Hc Hg Hp Hm Hgs.
    + rewrite Hw in * by done. destruct merr; close_inv Hc Hg Hp Hm Hgs.
    + rewrite Hw in * by done. close_inv Hc Hg Hp Hm Hgs.
    + rewrite Hw in * by done. close_inv Hc Hg Hp Hm Hgs.
  - (* the goroutine *)
    unfold step_go; simpl.
    destruct gpc; simpl.
    + destruct srv; close_inv Hc Hg Hp Hm Hgs.
    + destruct srv; close_inv Hc Hg Hp Hm Hgs.
    + close_inv Hc Hg Hp Hm Hgs.
    + destruct gerr as [e|]; [destruct (decide (e = ErrServerClosed))|]; close_inv Hc Hg Hp Hm Hgs.
    + close_inv Hc Hg Hp Hm Hgs.
  - destruct gpc; close_inv Hc Hg Hp Hm Hgs.
  - destruct mpc; close_inv Hc Hg Hp Hm Hgs.
Qed.

Lemma exec_inv (sched : list Label) (p : Proc) : inv p → inv (exec sched p).
Proof.
  intros Hp. induction sched as [|l sched IH] using rev_ind; [done|].
  rewrite exec_snoc. by apply step_inv.
Qed.

Lemma run_inv (env : gmap string string) (file : dotenv_file)
    (sched : list Label) : inv (run env file sched).
Proof. apply exec_inv, main_start_inv. Qed.

Lemma step_server (l : Label) (p : Proc) : server (step l p) = server p.
Proof.
  unfold step, step_main, step_go, panic_nil.
  destruct (status p); [|done].
  destruct l; simpl; try done.
  - by destruct (ctx_done p).
  - destruct (main_pc p); simpl; try done; by repeat case_match.
  - destruct (go_pc p); simpl; try done; by repeat case_match.
  - by destruct (go_pc p).
  - by destruct (main_pc p).
Qed.

Lemma exec_server (sched : list Label) (p : Proc) :
  server (exec sched p) = server p.
Proof.
  induction sched as [|l sched IH] using rev_ind; [done|].
  by rewrite exec_snoc, step_server.
Qed.

Lemma new_server_None (cfg : ServerConfig) (r : Router) :
  new_server cfg r = None ↔ Env cfg ≠ "development".
Proof. unfold new_server. case_decide; split; try done. Qed.

Lemma run_server (env : gmap string string) (file : dotenv_file)
    (sched : list Label) :
  server (run env file sched) = new_server (loaded_config env file) main_router.
Proof. unfold run. by rewrite exec_server, main_start_server. Qed.

Lemma main_start_state (env : gmap string string) (file : dotenv_file) :
  status (main_start env file) = Running ∧
  main_pc (main_start env file) = MWait ∧
  go_pc (main_start env file) = GPrintf ∧
  ctx_done (main_start env file) = false.
Proof. unfold main_start, GetServerConfig, godotenv_Load. by destruct file. Qed.

(** C1.  When the loaded environment field is not "development" start-up
    builds no server, logs nothing at error level and leaves the process
    running; the first statement of the goroutine then dereferences the
    nil server and the process dies with exit code 2, the controlling
    path does the same once it reaches [server.Shutdown], and no run ends
    with exit code 0.  A nil dereference can happen in some run exactly
    when the environment field is not "development". *)
Theorem nil_server_fault (env : gmap string string) (file : dotenv_file) :
  (Env (loaded_config env file) ≠ "development" →
     server (main_start env file) = None ∧
     status (main_start env file) = Running ∧
     (∀ r, EvLog r ∈ proc_trace (main_start env file) →
           log_level r ≠ LevelError) ∧
     step LGo (main_start env file) = panic_nil (main_start env file) ∧
     (∀ sched, status (run env file sched) = Running →
               main_pc (run env file sched) = MShutdown →
               step LMain (run env file sched) = panic_nil (run env file sched)) ∧
     (∀ sched, status (run env file sched) ≠ Exited 0)) ∧
  ((∃ sched, EvPanic ∈ proc_trace (run env file sched)) ↔
   Env (loaded_config env file) ≠ "development").
Proof.
  destruct (main_start_state env file) as (Hst & Hm & Hg & Hd).
  assert (Hnil : Env (loaded_config env file) ≠ "development" →
                 ∀ sched, server (run env file sched) = None).
  { intros Hne sched. rewrite run_server. by apply new_server_None. }
  assert (Hgo : Env (loaded_config env file) ≠ "development" →
                step LGo (main_start env file) = panic_nil (main_start env file)).
  { intros Hne. unfold step, step_go. rewrite Hst, Hg.
    pose proof (Hnil Hne []) as Hsrv. unfold run in Hsrv. simpl in Hsrv.
    by rewrite Hsrv. }
  split.
  - intros Hne. split_and!.
    + apply (Hnil Hne []).
    + done.
    + intros r Hin. rewrite main_start_trace in Hin.
      destruct file; elem_cases Hin; by injection Hin as ->.
    + by apply Hgo.
    + intros sched Hrun Hpc. unfold step, step_main.
      by rewrite Hrun, Hpc, (Hnil Hne sched).
    + intros sched Hexit.
      destruct (inv_exit _ (run_inv env file sched) 0 Hexit) as [[_ Hpc]|[? _]];
        [|done].
      assert (Hsome : is_Some (server (run env file sched))).
      { apply (inv_main_server _ (run_inv env file sched)).
        rewrite Hpc. by repeat constructor. }
      rewrite (Hnil Hne sched) in Hsome. by destruct Hsome.
  - split.
    + intros [sched Hpanic].
      apply (inv_panic _ (run_inv env file sched)) in Hpanic.
      destruct (inv_exit _ (run_inv env file sched) 2 Hpanic) as [[? _]|[_ Hsrv]];
        [done|].
      rewrite run_server in Hsrv. by apply new_server_None in Hsrv.
    + intros Hne. exists [LGo].
      apply (inv_panic _ (run_inv env file [LGo])).
      unfold run. simpl. by rewrite (Hgo Hne).
Qed.

Lemma nil_server_fault_witness :
  server (main_start prod_env FileAbsent) = None ∧
  status (step LGo (main_start prod_env FileAbsent)) = Exited 2 ∧
  status (run prod_env FileAbsent [LSignal; LMain; LMain; LMain]) = Exited 2.
Proof.
  assert (Hne : Env (loaded_config prod_env FileAbsent) ≠ "development")
    by (vm_compute; discriminate).
  destruct (nil_server_fault prod_env FileAbsent) as [Hfault _].
  destruct (Hfault Hne) as (Hsrv & _ & _ & Hgo & Hmain & _).
  split; [exact Hsrv|]. split.
  - rewrite Hgo. reflexivity.
  - change (run prod_env FileAbsent [LSignal; LMain; LMain; LMain])
      with (step LMain (run prod_env FileAbsent [LSignal; LMain; LMain])).
    rewrite (Hmain [LSignal; LMain; LMain]); vm_compute; reflexivity.
Defined.

Lemma precedes_view (a b : Event) (tr : list Event) :
  is_ctrl b = true → precedes a b (ctrl_view tr) → precedes a b tr.
Proof.
  intros Hb Hview pre post ->.
  assert (Hin : a ∈ ctrl_view pre).
  { apply (Hview (ctrl_view pre) (ctrl_view post)).
    unfold ctrl_view. rewrite List.filter_app. simpl. by rewrite Hb. }
  unfold ctrl_view in Hin. apply list_elem_of_In, List.filter_In in Hin.
  apply list_elem_of_In. by destruct Hin.
Qed.

Lemma occurrences_view (e : Event) (tr : list Event) :
  is_ctrl e = true → occurrences e tr = occurrences e (ctrl_view tr).
Proof.
  intros He. unfold occurrences, ctrl_view.
  induction tr as [|x tr IH]; [done|]. simpl.
  destruct (decide (x = e)) as [->|Hne].
  - rewrite He. simpl. rewrite bool_decide_eq_true_2 by done. simpl. by rewrite IH.
  - rewrite bool_decide_eq_false_2 by done.
    destruct (is_ctrl x); simpl; [rewrite bool_decide_eq_false_2 by done|]; done.
Qed.

Ltac unfold_events :=
  unfold ctrl_sequence, ctrl_so_far, forced_logs, shutdown_log, exited_log,
    forced_log, accept_log, slog_Info, slog_Error, slog_Warn,
    shutdown_msg, forced_msg, exited_msg, accept_msg in *.

(** [precedes a b l] for an explicit list [l]: walk along [l]. *)
Ltac precedes_walk Heq pre :=
  destruct pre as [|? pre]; simpl in Heq;
  [ first [ discriminate Heq | by repeat constructor ]
  | first [ discriminate Heq
          | injection Heq as <- Heq; precedes_walk Heq pre ] ].

Ltac precedes_explicit :=
  let pre := fresh "pre" in
  let post := fresh "post" in
  let Heq := fresh "Heq" in
  intros pre post Heq; precedes_walk Heq pre.

Lemma ctrl_so_far_order (p : Proc) :
  (main_pc p ≠ MWait → ctx_done p = true) →
  precedes EvSignal shutdown_log (ctrl_so_far p) ∧
  precedes shutdown_log (EvDrainBegin shutdown_timeout) (ctrl_so_far p) ∧
  precedes EvSignal (EvDrainBegin shutdown_timeout) (ctrl_so_far p) ∧
  precedes (EvDrainBegin shutdown_timeout) exited_log (ctrl_so_far p).
Proof.
  intros Hw. unfold_events.
  destruct (main_pc p); try (rewrite Hw by done);
    destruct (ctx_done p); destruct (main_err p); simpl.
  all: split_and!.
  all: precedes_explicit.
Qed.

Lemma ctrl_so_far_prefix (p : Proc) :
  (main_pc p ≠ MWait → ctx_done p = true) →
  ctrl_so_far p `prefix_of` ctrl_sequence (main_err p).
Proof.
  intros Hw. unfold ctrl_so_far, ctrl_sequence.
  destruct (main_pc p); try (rewrite Hw by done);
    try destruct (ctx_done p); simpl;
    repeat (apply prefix_cons); try apply prefix_nil; try done.
  all: by apply prefix_app_r.
Qed.

Lemma ctrl_so_far_once (p : Proc) :
  (occurrences EvSignal (ctrl_so_far p) ≤ 1)%nat.
Proof.
  unfold_events.
  destruct (main_pc p), (ctx_done p), (main_err p); vm_compute; lia.
Qed.

Lemma ctrl_so_far_deadline (p : Proc) (d : Z) :
  EvDrainBegin d ∈ ctrl_so_far p → d = shutdown_timeout.
Proof.
  unfold_events. intros Hin.
  destruct (main_pc p), (ctx_done p), (main_err p); simpl in Hin;
    elem_cases Hin; by injection Hin.
Qed.

Lemma ctrl_so_far_once_each (p : Proc) :
  (occurrences shutdown_log (ctrl_so_far p) ≤ 1)%nat ∧
  (occurrences (EvDrainBegin shutdown_timeout) (ctrl_so_far p) ≤ 1)%nat ∧
  (occurrences exited_log (ctrl_so_far p) ≤ 1)%nat.
Proof.
  unfold_events.
  destruct (main_pc p), (ctx_done p), (main_err p); vm_compute; lia.
Qed.

Lemma ctrl_so_far_signal (p : Proc) :
  (main_pc p ≠ MWait → ctx_done p = true) →
  EvSignal ∈ ctrl_so_far p → ctx_done p = true.
Proof.
  intros Hw Hin. destruct (ctx_done p) eqn:Hd; [done|].
  assert (Hpc : main_pc p = MWait).
  { destruct (decide (main_pc p = MWait)) as [|Hne]; [done|].
    by discriminate (Hw Hne). }
  unfold ctrl_so_far in Hin. rewrite Hd, Hpc in Hin. by elem_cases Hin.
Qed.

Lemma ctrl_so_far_drain_begun (p : Proc) (d : Z) :
  EvDrainBegin d ∈ ctrl_so_far p →
  main_pc p ∈ [MDraining; MCheckErr; MLogExit; MReturn].
Proof.
  unfold_events. intros Hin.
  destruct (main_pc p), (ctx_done p), (main_err p); simpl in Hin;
    try (by elem_cases Hin); by repeat constructor.
Qed.

Lemma ctrl_so_far_reached (p : Proc) :
  (3 ≤ main_rank (main_pc p))%nat →
  shutdown_log ∈ ctrl_so_far p ∧
  EvDrainBegin shutdown_timeout ∈ ctrl_so_far p.
Proof.
  unfold ctrl_so_far. intros Hrank.
  destruct (main_pc p); simpl in Hrank; try lia;
    split; apply elem_of_app; right; by repeat constructor.
Qed.

Lemma ctrl_view_elem (x : Event) (tr : list Event) :
  x ∈ ctrl_view tr ↔ x ∈ tr ∧ is_ctrl x = true.
Proof. unfold ctrl_view. rewrite !list_elem_of_In. apply List.filter_In. Qed.

(** No drain without a server. *)
Lemma drain_needs_server (env : gmap string string) (file : dotenv_file)
    (sched : list Label) (d : Z) :
  EvDrainBegin d ∈ proc_trace (run env file sched) →
  Env (loaded_config env file) = "development".
Proof.
  intros Hin. pose proof (run_inv env file sched) as Hinv.
  assert (Hpc : main_pc (run env file sched)
                ∈ [MDraining; MCheckErr; MLogExit; MReturn]).
  { apply (ctrl_so_far_drain_begun _ d). rewrite <- (inv_ctrl _ Hinv).
    by apply ctrl_view_elem. }
  destruct (inv_main_server _ Hinv Hpc) as [srv Hsrv].
  rewrite run_server in Hsrv. unfold new_server in Hsrv. by case_decide.
Qed.

Lemma exec_cons (l : Label) (sched : list Label) (p : Proc) :
  exec (l :: sched) p = exec sched (step l p).
Proof. reflexivity. Qed.

Lemma run_app (env : gmap string string) (file : dotenv_file)
    (sched more : list Label) :
  run env file (sched ++ more) = exec more (run env file sched).
Proof. unfold run, exec. by rewrite foldl_app. Qed.

(** A woken process stays woken, its controlling path never goes back,
    and each of its statements before the drain takes it one further. *)
Lemma step_woken (l : Label) (p : Proc) :
  woken p →
  woken (step l p) ∧
  (main_rank (main_pc p) ≤ main_rank (main_pc (step l p)))%nat ∧
  (l = LMain → (main_rank (main_pc p) < 3)%nat →
   main_rank (main_pc (step l p)) = S (main_rank (main_pc p))).
Proof.
  destruct p as [w srv done mpc merr gpc gerr st].
  unfold woken. simpl. intros ([s ->] & -> & Hst).
  unfold step, step_main, step_go. simpl.
  destruct st as [|code].
  - destruct l; simpl.
    + split_and!; eauto. done.
    + destruct mpc; simpl; try destruct merr; simpl;
        split_and!; eauto; try done; try lia; right; lia.
    + destruct gpc; simpl; try destruct gerr as [e|];
        try destruct (decide (e = ErrServerClosed)); simpl;
        split_and!; eauto; done.
    + destruct gpc; simpl; split_and!; eauto; done.
    + destruct mpc; simpl; split_and!; eauto; try done; lia.
  - destruct Hst as [|Hrank]; [done|]. simpl.
    split_and!; eauto. lia.
Qed.

Lemma exec_woken (more : list Label) (p : Proc) :
  woken p →
  (3 ≤ main_moves more + main_rank (main_pc p))%nat →
  (3 ≤ main_rank (main_pc (exec more p)))%nat.
Proof.
  revert p. induction more as [|l more IH]; intros p Hw Hcount.
  - by simpl in *.
  - rewrite exec_cons.
    destruct (step_woken l p Hw) as (Hw' & Hmono & Hmove).
    apply IH; [done|].
    destruct (match l with LMain => true | _ => false end) eqn:Hl.
    + assert (l = LMain) as -> by (by destruct l).
      unfold main_moves in *. simpl in Hcount.
      destruct (decide (main_rank (main_pc p) < 3)%nat) as [Hlt|Hge].
      * rewrite (Hmove eq_refl Hlt). lia.
      * lia.
    + assert (Hsame : main_moves (l :: more) = main_moves more)
        by (unfold main_moves; simpl; by rewrite Hl).
      rewrite Hsame in Hcount. lia.
Qed.

(** C3, as the code has it.  Order, in the trace of every run: the
    context is cancelled by a signal at most once, and the controlling
    path reacts at most once (one shutdown record, one entry into the
    drain, one exit record at most); every shutdown record comes after
    the signal, every entry into the drain comes after that record (hence
    after the signal), carries the deadline of 5 seconds and happens only
    when a server was built, and every exit record comes after the entry
    into the drain; altogether the events of the shutdown protocol form
    an initial part of: signal, shutdown record, drain begins, drain
    ends, error record if the drain failed, exit record.  Progress, when
    a server was built: once the signal has fired, any three further
    statements of the controlling path, however they are interleaved with
    the goroutine, have logged the shutdown record and entered the drain
    with the deadline of 5 seconds. *)
Theorem shutdown_order (env : gmap string string) (file : dotenv_file)
    (sched : list Label) :
  (occurrences EvSignal (proc_trace (run env file sched)) ≤ 1)%nat ∧
  precedes EvSignal shutdown_log (proc_trace (run env file sched)) ∧
  precedes shutdown_log (EvDrainBegin shutdown_timeout)
           (proc_trace (run env file sched)) ∧
  precedes EvSignal (EvDrainBegin shutdown_timeout)
           (proc_trace (run env file sched)) ∧
  (∀ d, EvDrainBegin d ∈ proc_trace (run env file sched) →
        d = 5 * time_Second) ∧
  precedes (EvDrainBegin shutdown_timeout) exited_log
           (proc_trace (run env file sched)) ∧
  (∃ err, ctrl_view (proc_trace (run env file sched))
            `prefix_of` ctrl_sequence err) ∧
  (occurrences shutdown_log (proc_trace (run env file sched)) ≤ 1)%nat ∧
  (occurrences (EvDrainBegin shutdown_timeout)
               (proc_trace (run env file sched)) ≤ 1)%nat ∧
  (occurrences exited_log (proc_trace (run env file sched)) ≤ 1)%nat ∧
  (∀ d, EvDrainBegin d ∈ proc_trace (run env file sched) →
        Env (loaded_config env file) = "development") ∧
  (Env (loaded_config env file) = "development" →
   EvSignal ∈ proc_trace (run env file sched) →
   ∀ more, (3 ≤ main_moves more)%nat →
     shutdown_log ∈ proc_trace (run env file (sched ++ more)) ∧
     EvDrainBegin (5 * time_Second)
       ∈ proc_trace (run env file (sched ++ more))).
Proof.
  pose proof (run_inv env file sched) as Hinv.
  pose proof (inv_ctrl _ Hinv) as Hview.
  pose proof (inv_woken _ Hinv) as Hw.
  destruct (ctrl_so_far_order _ Hw) as (H1 & H2 & H3 & H4).
  destruct (ctrl_so_far_once_each (run env file sched)) as (O1 & O2 & O3).
  split_and!.
  - rewrite occurrences_view by done. rewrite Hview. apply ctrl_so_far_once.
  - apply precedes_view; [done|]. by rewrite Hview.
  - apply precedes_view; [done|]. by rewrite Hview.
  - apply precedes_view; [done|]. by rewrite Hview.
  - intros d Hin. apply (ctrl_so_far_deadline (run env file sched)).
    rewrite <- Hview. unfold ctrl_view.
    apply list_elem_of_In, List.filter_In. split; [by apply list_elem_of_In|done].
  - apply precedes_view; [done|]. by rewrite Hview.
  - exists (main_err (run env file sched)). rewrite Hview.
    by apply ctrl_so_far_prefix.
  - rewrite occurrences_view by done. by rewrite Hview.
  - rewrite occurrences_view by done. by rewrite Hview.
  - rewrite occurrences_view by done. by rewrite Hview.
  - intros d Hin. by apply (drain_needs_server env file sched d).
  - intros Hdev Hsig more Hmoves.
    assert (Hdone : ctx_done (run env file sched) = true).
    { apply (ctrl_so_far_signal _ Hw). rewrite <- Hview.
      by apply ctrl_view_elem. }
    assert (Hwoken : woken (run env file sched)).
    { split_and!; [|done|].
      - rewrite run_server. unfold new_server. rewrite decide_True by done. eauto.
      - destruct (status (run env file sched)) as [|code] eqn:Hst; [by left|].
        right. destruct (inv_exit _ Hinv code Hst) as [[_ Hpc]|[_ Hnil]].
        + rewrite Hpc. simpl. lia.
        + rewrite run_server in Hnil. apply new_server_None in Hnil. done. }
    assert (Hrank : (3 ≤ main_rank (main_pc (run env file (sched ++ more))))%nat).
    { rewrite run_app. apply exec_woken; [done|lia]. }
    destruct (ctrl_so_far_reached _ Hrank) as [Hlog Hdrain].
    rewrite <- (inv_ctrl _ (run_inv env file (sched ++ more))) in Hlog, Hdrain.
    apply ctrl_view_elem in Hlog as [Hlog _].
    apply ctrl_view_elem in Hdrain as [Hdrain _].
    done.
Qed.

Lemma shutdown_order_witness :
  EvSignal ∈ take 6 (proc_trace (run dev_env FileAbsent sample_schedule)) ∧
  shutdown_log ∈ take 6 (proc_trace (run dev_env FileAbsent sample_schedule)) ∧
  EvDrainBegin (5 * time_Second)
    ∈ proc_trace (run dev_env FileAbsent
                    ([LGo; LSignal] ++ [LMain; LGo; LMain; LSignal; LMain])).
Proof.
  destruct (shutdown_order dev_env FileAbsent sample_schedule)
    as (_ & _ & Hlog & Hsig & _).
  split; [|split].
  - apply (Hsig _ (drop 7 (proc_trace (run dev_env FileAbsent sample_schedule)))).
    vm_compute. reflexivity.
  - apply (Hlog _ (drop 7 (proc_trace (run dev_env FileAbsent sample_schedule)))).
    vm_compute. reflexivity.
  - destruct (shutdown_order dev_env FileAbsent [LGo; LSignal])
      as (_ & _ & _ & _ & _ & _ & _ & _ & _ & _ & _ & Hprogress).
    apply Hprogress.
    + vm_compute. reflexivity.
    + apply (bool_decide_unpack _). vm_compute. exact I.
    + vm_compute. lia.
Defined.

(** C3, as stated, fails: with ENV=production and the signal arriving
    before the goroutine has run, the controlling path logs the shutdown
    record, calls [Shutdown] on the nil server and the process panics; no
    continuation of the run ever enters the drain. *)
Lemma signal_always_drains_fails :
  EvSignal ∈ proc_trace (run prod_env FileAbsent [LSignal]) ∧
  (∀ more, EvDrainBegin shutdown_timeout
             ∉ proc_trace (run prod_env FileAbsent ([LSignal] ++ more))) ∧
  drop 2 (proc_trace (run prod_env FileAbsent [LSignal; LMain; LMain; LMain]))
    = [EvSignal; shutdown_log; EvPanic] ∧
  ¬ signal_always_drains.
Proof.
  assert (Hsig : EvSignal ∈ proc_trace (run prod_env FileAbsent [LSignal]))
    by (apply (bool_decide_unpack _); vm_compute; exact I).
  assert (Hnever : ∀ more, EvDrainBegin shutdown_timeout
             ∉ proc_trace (run prod_env FileAbsent ([LSignal] ++ more))).
  { intros more Hin. apply drain_needs_server in Hin.
    vm_compute in Hin. discriminate Hin. }
  split_and!; try done.
  intros Hall. destruct (Hall prod_env FileAbsent [LSignal] Hsig) as [more Hin].
  by apply (Hnever more).
Qed.

Example sample_run_protocol :
  ctrl_view (proc_trace (run dev_env FileAbsent sample_schedule)) =
    ctrl_sequence (Some (ErrOther "context deadline exceeded")) ∧
  status (run dev_env FileAbsent sample_schedule) = Exited 0.
Proof. split; vm_compute; reflexivity. Qed.
Lemma exec_exited (sched : list Label) (p : Proc) (code : Z) :
  status p = Exited code → exec sched p = p.
Proof.
  intros Hst. induction sched as [|l sched IH] using rev_ind; [done|].
  rewrite exec_snoc, IH. unfold step. by rewrite Hst.
Qed.

Lemma main_to_end_exits (p : Proc) (err : option error) :
  status p = Running → is_Some (server p) → ctx_done p = true →
  status (exec (main_to_end err) p) = Exited 0.
Proof.
  destruct p as [w srv done mpc merr gpc gerr st]. simpl.
  intros -> [s ->] ->.
  destruct mpc, merr, err; reflexivity.
Qed.

Lemma main_to_end_from_start (p : Proc) (err : option error) :
  status p = Running → is_Some (server p) → main_pc p = MWait →
  ctx_done p = false →
  status (exec (LSignal :: main_to_end err) p) = Exited 0 ∧
  main_pc (exec (LSignal :: main_to_end err) p) = MReturn ∧
  main_err (exec (LSignal :: main_to_end err) p) = err ∧
  ctx_done (exec (LSignal :: main_to_end err) p) = true.
Proof.
  destruct p as [w srv done mpc merr gpc gerr st]. simpl.
  intros -> [s ->] -> ->. by destruct err.
Qed.

(** *** Runs in the development environment *)

Section Development.

Context (env : gmap string string) (file : dotenv_file).
Hypothesis Hdev : Env (loaded_config env file) = "development".

Lemma dev_server (sched : list Label) :
  server (run env file sched) =
    Some {| Addr := Port (loaded_config env file);
            Handler := main_router;
            ReadTimeout := 10 * time_Second;
            WriteTimeout := 10 * time_Second;
            IdleTimeout := 60 * time_Second |}.
Proof. rewrite run_server. unfold new_server. by rewrite decide_True. Qed.

Lemma dev_exit_code (sched : list Label) (code : Z) :
  status (run env file sched) = Exited code →
  code = 0 ∧ main_pc (run env file sched) = MReturn.
Proof.
  intros Hst.
  destruct (inv_exit _ (run_inv env file sched) code Hst) as [?|[_ Hnil]];
    [done|].
  by rewrite dev_server in Hnil.
Qed.

Lemma dev_waiting (sched : list Label) :
  ctx_done (run env file sched) = false →
  status (run env file sched) = Running ∧ main_pc (run env file sched) = MWait.
Proof.
  intros Hdone.
  assert (Hpc : main_pc (run env file sched) = MWait).
  { destruct (decide (main_pc (run env file sched) = MWait)) as [|Hne]; [done|].
    pose proof (inv_woken _ (run_inv env file sched) Hne). congruence. }
  split; [|done].
  destruct (status (run env file sched)) as [|code] eqn:Hst; [done|].
  destruct (dev_exit_code sched code Hst). congruence.
Qed.

(** C4.  When the loaded environment field is "development" the server
    the controller builds listens on the configuration's port, routes
    through the router of [main], and has read, write and idle timeouts
    of 10, 10 and 60 seconds; no step of a run replaces it. *)
Theorem development_server (sched : list Label) :
  ∃ srv, server (run env file sched) = Some srv ∧
    Addr srv = Port (loaded_config env file) ∧
    Handler srv = main_router ∧
    ReadTimeout srv = 10 * time_Second ∧
    WriteTimeout srv = 10 * time_Second ∧
    IdleTimeout srv = 60 * time_Second.
Proof. eexists. split; [apply dev_server|]. by split_and!. Qed.

(** C2, as the code has it.  In a run whose loaded environment field is
    "development" the process never panics and can only end with exit
    code 0, by the controlling path returning after it logged the exit
    record at the end of the complete shutdown protocol, in which a drain
    error appears as one error-level record and nothing else.  Once the
    signal has fired the controlling path does get there, whatever the
    drain returns. *)
Theorem development_exit_zero (sched : list Label) :
  (EvPanic ∉ proc_trace (run env file sched)) ∧
  (∀ code, status (run env file sched) = Exited code →
     code = 0 ∧
     ctrl_view (proc_trace (run env file sched)) =
       ctrl_sequence (main_err (run env file sched))) ∧
  (ctx_done (run env file sched) = true →
     ∀ err, status (exec (main_to_end err) (run env file sched)) = Exited 0) ∧
  (∀ err, status (run env file (LSignal :: main_to_end err)) = Exited 0 ∧
          ctrl_view (proc_trace (run env file (LSignal :: main_to_end err))) =
            ctrl_sequence err).
Proof.
  pose proof (run_inv env file sched) as Hinv.
  assert (Hsrv : ∀ s, is_Some (server (run env file s)))
    by (intros s; rewrite dev_server; eauto).
  split_and!.
  - intros Hpanic. apply (inv_panic _ Hinv) in Hpanic.
    by destruct (dev_exit_code sched 2 Hpanic).
  - intros code Hst. destruct (dev_exit_code sched code Hst) as [-> Hpc].
    split; [done|].
    rewrite (inv_ctrl _ Hinv). unfold ctrl_so_far, ctrl_sequence.
    rewrite Hpc. by rewrite (inv_woken _ Hinv) by (by rewrite Hpc).
  - intros Hdone err.
    destruct (status (run env file sched)) as [|code] eqn:Hst.
    + by apply main_to_end_exits.
    + destruct (dev_exit_code sched code Hst) as [-> _].
      by rewrite (exec_exited _ _ 0).
  - intros err.
    destruct (main_start_state env file) as (Hst & Hm & Hg & Hd).
    destruct (main_to_end_from_start (main_start env file) err Hst (Hsrv []) Hm Hd)
      as (Hst' & Hm' & He' & Hd').
    split; [done|].
    rewrite (inv_ctrl _ (run_inv env file (LSignal :: main_to_end err))).
    unfold run, ctrl_so_far, ctrl_sequence. by rewrite Hm', He', Hd'.
Qed.

End Development.

Lemma development_server_witness :
  ∃ srv, server (run dev_env FileAbsent []) = Some srv ∧
    Addr srv = Port (loaded_config dev_env FileAbsent) ∧
    Handler srv = main_router ∧
    ReadTimeout srv = 10 * time_Second ∧
    WriteTimeout srv = 10 * time_Second ∧
    IdleTimeout srv = 60 * time_Second.
Proof.
  apply (development_server dev_env FileAbsent). vm_compute. reflexivity.
Defined.

Lemma development_exit_zero_witness :
  status (run dev_env FileAbsent
            (LSignal :: main_to_end (Some (ErrOther "context deadline exceeded"))))
    = Exited 0.
Proof.
  assert (Hdev : Env (loaded_config dev_env FileAbsent) = "development")
    by (vm_compute; reflexivity).
  destruct (development_exit_zero dev_env FileAbsent Hdev []) as (_ & _ & _ & Hrun).
  exact (proj1 (Hrun (Some (ErrOther "context deadline exceeded")))).
Defined.

(** C2, as stated, fails: with ENV=production the controlling path wakes
    up on the signal, logs, calls [Shutdown] on the nil server and the
    process dies with exit code 2; so it does when the goroutine runs
    first. *)
Lemma exits_zero_always_fails :
  status (run prod_env FileAbsent [LSignal; LMain; LMain; LMain]) = Exited 2 ∧
  status (run prod_env FileAbsent [LGo]) = Exited 2 ∧
  ¬ exits_zero_always.
Proof.
  split_and!; [vm_compute; reflexivity..|].
  intros Hall.
  specialize (Hall prod_env FileAbsent [LGo] 2 ltac:(vm_compute; reflexivity)).
  discriminate Hall.
Qed.

Lemma go_view_elem (x : Event) (tr : list Event) :
  x ∈ go_view tr ↔ x ∈ tr ∧ is_go x = true.
Proof.
  unfold go_view. rewrite !list_elem_of_In. apply List.filter_In.
Qed.

(** C5.  In every run: when [ListenAndServe] has returned an error other
    than [http.ErrServerClosed], the goroutine's next statement appends
    one error-level record carrying that error, the goroutine is done,
    and the process keeps running with the controlling path where it
    was; a goroutine that is done stays done; once it is done the error
    it got, unless it is the sentinel, is in the log; a record of the
    accept loop never carries the sentinel; and in the development
    environment, as long as no signal has fired, the process is running
    and the controlling path is waiting, whatever the accept loop did. *)
Theorem accept_loop_failure (env : gmap string string) (file : dotenv_file)
    (sched : list Label) :
  (∀ e, status (run env file sched) = Running →
        go_pc (run env file sched) = GCheckErr →
        go_err (run env file sched) = Some e →
        e ≠ ErrServerClosed →
        proc_trace (step LGo (run env file sched)) =
          proc_trace (run env file sched)
          ++ [EvLog (mkLog LevelError accept_msg [("Error:", e)])] ∧
        go_pc (step LGo (run env file sched)) = GDone ∧
        status (step LGo (run env file sched)) = Running ∧
        main_pc (step LGo (run env file sched)) = main_pc (run env file sched) ∧
        ctx_done (step LGo (run env file sched)) = ctx_done (run env file sched)) ∧
  (go_pc (run env file sched) = GDone →
     ∀ l, go_pc (step l (run env file sched)) = GDone) ∧
  (go_pc (run env file sched) = GDone →
     ∀ e, EvListenReturn (Some e) ∈ proc_trace (run env file sched) →
          e ≠ ErrServerClosed →
          accept_log e ∈ proc_trace (run env file sched)) ∧
  (∀ lvl attrs key,
     EvLog (mkLog lvl accept_msg attrs) ∈ proc_trace (run env file sched) →
     (key, ErrServerClosed) ∉ attrs) ∧
  (Env (loaded_config env file) = "development" →
   ctx_done (run env file sched) = false →
   status (run env file sched) = Running ∧ main_pc (run env file sched) = MWait).
Proof.
  pose proof (run_inv env file sched) as Hinv.
  pose proof (inv_go _ Hinv) as Hview.
  set (p := run env file sched) in *.
  split_and!.
  - intros e Hst Hpc Herr Hne.
    unfold step, step_go. rewrite Hst, Hpc, Herr.
    by rewrite decide_False by done.
  - intros Hpc l. unfold step, step_main, step_go, panic_nil.
    destruct (status p); [|done].
    destruct l; simpl; rewrite ?Hpc; try done.
    + by destruct (ctx_done p).
    + destruct (main_pc p); simpl; try done; by repeat case_match.
    + by destruct (main_pc p).
  - intros Hpc e Hret Hne.
    assert (Hin : EvListenReturn (Some e) ∈ go_view (proc_trace p))
      by (by apply go_view_elem).
    rewrite Hview in Hin. unfold go_so_far in Hin. rewrite Hpc in Hin.
    assert (Herr : go_err p = Some e).
    { unfold accept_logs in Hin.
      destruct (go_err p) as [e'|]; [destruct (decide (e' = ErrServerClosed))|];
        simpl in Hin; elem_cases Hin; congruence. }
    apply (go_view_elem (accept_log e)). rewrite Hview. unfold go_so_far.
    rewrite Hpc, Herr. unfold accept_logs. rewrite decide_False by done.
    by repeat constructor.
  - intros lvl attrs key Hlog Hattr.
    assert (Hin : EvLog (mkLog lvl accept_msg attrs) ∈ go_view (proc_trace p))
      by (by apply go_view_elem).
    rewrite Hview in Hin. unfold go_so_far, accept_logs in Hin.
    destruct (go_pc p); try (by elem_cases Hin).
    destruct (go_err p) as [e|]; [destruct (decide (e = ErrServerClosed))|];
      simpl in Hin; elem_cases Hin.
    injection Hin as -> ->. elem_cases Hattr. congruence.
  - intros Hdev Hdone. by apply dev_waiting.
Qed.

Lemma accept_loop_failure_witness :
  proc_trace (step LGo (run dev_env FileAbsent bind_schedule)) =
    proc_trace (run dev_env FileAbsent bind_schedule)
    ++ [EvLog (mkLog LevelError accept_msg [("Error:", bind_error)])] ∧
  status (step LGo (run dev_env FileAbsent bind_schedule)) = Running ∧
  main_pc (step LGo (run dev_env FileAbsent bind_schedule)) = MWait.
Proof.
  destruct (accept_loop_failure dev_env FileAbsent bind_schedule) as (Hlog & _).
  destruct (Hlog bind_error) as (Htr & _ & Hst & Hpc & _).
  - vm_compute. reflexivity.
  - vm_compute. reflexivity.
  - vm_compute. reflexivity.
  - discriminate.
  - split; [exact Htr|]. split; [exact Hst|].
    rewrite Hpc. vm_compute. reflexivity.
Defined.

(** C9.  A GET request for the path / is answered by the handler of
    line 205 through the router: status 200 and the bytes of the literal
    of line 206, which is the JSON document the spec gives up to white
    space between tokens.  This is the handler of the server of every run
    that has one. *)
Theorem liveness_route (req : Request) :
  Method req = "GET" → URLPath req = "/" →
  serve (chi_ServeHTTP main_router) req =
    {| resp_status := 200; resp_body := liveness_body |} ∧
  json_compact false false liveness_body =
    json_compact false false spec_liveness_json ∧
  (∀ env file sched srv, server (run env file sched) = Some srv →
     serve (chi_ServeHTTP (Handler srv)) req =
       {| resp_status := 200; resp_body := liveness_body |}).
Proof.
  intros Hm Hp.
  assert (Hserve : serve (chi_ServeHTTP main_router) req =
                     {| resp_status := 200; resp_body := liveness_body |}).
  { destruct req as [m path body]. simpl in Hm, Hp. subst m path.
    vm_compute. reflexivity. }
  split_and!; [done|vm_compute; reflexivity|].
  intros env file sched srv Hsrv. rewrite run_server in Hsrv.
  unfold new_server in Hsrv. case_decide; [|done].
  by injection Hsrv as <-.
Qed.

Lemma liveness_route_witness :
  serve (chi_ServeHTTP main_router) (mkRequest "GET" "/" "") =
    {| resp_status := 200; resp_body := liveness_body |}.
Proof.
  exact (proj1 (liveness_route (mkRequest "GET" "/" "") eq_refl eq_refl)).
Defined.

(** * Further properties of the code *)

(** ** The loader, in full *)

(** X1.  Every field of the returned configuration is the value of its
    variable in the process environment when the variable is set there
    (even to the empty string); otherwise the value the override file
    gives it, when the file was read and has it; otherwise the empty
    string. *)
Theorem GetServerConfig_precedence (w : World) :
  fst (GetServerConfig w) =
    {| Port := config_value w "PORT";
       Host := config_value w "HOST";
       Env  := config_value w "ENV" |}.
Proof.
  rewrite GetServerConfig_fields.
  assert (Hkey : ∀ key, os_Getenv (environ_after_load w) key = config_value w key).
  { intros key. unfold os_Getenv, config_value.
    destruct (environ w !! key) as [v|] eqn:Hk.
    - by rewrite (environ_after_load_set w key v Hk).
    - rewrite (environ_after_load_unset w key Hk). by destruct (dotenv w). }
  by rewrite !Hkey.
Qed.

Lemma GetServerConfig_trace (w : World) :
  trace (snd (GetServerConfig w)) = trace w ++ load_warnings (dotenv w).
Proof.
  unfold GetServerConfig, godotenv_Load, load_warnings.
  destruct (dotenv w); simpl; by rewrite ?app_nil_r.
Qed.

(** X2.  The loader keeps the override file and everything already in
    the trace, appends one warning exactly when the file could not be
    loaded and nothing otherwise, never removes or changes a variable of
    the process environment, and leaves the environment alone when the
    file could not be loaded. *)
Theorem GetServerConfig_effects (w : World) :
  dotenv (snd (GetServerConfig w)) = dotenv w ∧
  trace (snd (GetServerConfig w)) = trace w ++ load_warnings (dotenv w) ∧
  environ w ⊆ environ (snd (GetServerConfig w)) ∧
  ((∀ vars, dotenv w ≠ FileVars vars) →
   environ (snd (GetServerConfig w)) = environ w).
Proof.
  split_and!.
  - apply GetServerConfig_dotenv.
  - apply GetServerConfig_trace.
  - rewrite GetServerConfig_environ. unfold environ_after_load.
    destruct (dotenv w); try done. apply map_union_subseteq_l.
  - intros Hno. rewrite GetServerConfig_environ. unfold environ_after_load.
    destruct (dotenv w) as [| |vars]; try done. by destruct (Hno vars).
Qed.

Lemma GetServerConfig_effects_witness :
  environ (snd (GetServerConfig (mkWorld prod_env FileMalformed []))) = prod_env.
Proof.
  apply (GetServerConfig_effects (mkWorld prod_env FileMalformed [])).
  intros vars. simpl. discriminate.
Defined.

(** ** What does not matter to a run *)

Lemma step_set_proc_environ (env : gmap string string) (l : Label) (p : Proc) :
  step l (set_proc_environ env p) = set_proc_environ env (step l p).
Proof.
  destruct p as [[e f tr] srv done mpc merr gpc gerr st].
  unfold step, step_main, step_go, panic_nil, set_proc_environ. simpl.
  destruct st; [|done].
  destruct l; simpl.
  - by destruct done.
  - destruct mpc; simpl; try done; by repeat case_match.
  - destruct gpc; simpl; try done; by repeat case_match.
  - by destruct gpc.
  - by destruct mpc.
Qed.

Lemma exec_set_proc_environ (env : gmap string string) (sched : list Label)
    (p : Proc) :
  exec sched (set_proc_environ env p) = set_proc_environ env (exec sched p).
Proof.
  induction sched as [|l sched IH] using rev_ind; [done|].
  by rewrite !exec_snoc, IH, step_set_proc_environ.
Qed.

Lemma os_Getenv_after_load_agree (w1 w2 : World) (key : string) :
  dotenv w1 = dotenv w2 →
  environ w1 !! key = environ w2 !! key →
  os_Getenv (environ_after_load w1) key = os_Getenv (environ_after_load w2) key.
Proof.
  intros Hfile Hkey. unfold os_Getenv, environ_after_load. rewrite <- Hfile.
  destruct (dotenv w1); try by rewrite Hkey.
  by rewrite !lookup_union, Hkey.
Qed.

Lemma main_start_explicit (env : gmap string string) (file : dotenv_file) :
  main_start env file =
    mkProc (snd (GetServerConfig
                   (emit (EvStdout ("Relay starts!" +:+ newline))
                         (initial_world env file))))
           (new_server (loaded_config env file) main_router)
           false MWait None GPrintf None Running.
Proof.
  unfold main_start, loaded_config, GetServerConfig, godotenv_Load.
  by destruct file.
Qed.

(** X3.  HOST is read and then never used: two process environments
    that agree on every variable but HOST give, under the same override
    file and the same schedule, runs with the same server, the same
    trace and the same state of both paths. *)
Theorem host_is_unused (env1 env2 : gmap string string) (file : dotenv_file)
    (sched : list Label) :
  (∀ key, key ≠ "HOST" → env1 !! key = env2 !! key) →
  proc_trace (run env1 file sched) = proc_trace (run env2 file sched) ∧
  server (run env1 file sched) = server (run env2 file sched) ∧
  status (run env1 file sched) = status (run env2 file sched) ∧
  main_pc (run env1 file sched) = main_pc (run env2 file sched) ∧
  go_pc (run env1 file sched) = go_pc (run env2 file sched) ∧
  ∃ env, run env1 file sched = set_proc_environ env (run env2 file sched).
Proof.
  intros Hagree.
  assert (Hstart : ∃ env, main_start env1 file =
                          set_proc_environ env (main_start env2 file)).
  { exists (environ (world (main_start env1 file))).
    rewrite !main_start_explicit. unfold set_proc_environ. simpl.
    f_equal.
    - pose proof (GetServerConfig_dotenv
        (emit (EvStdout ("Relay starts!" +:+ newline)) (initial_world env1 file)))
        as Hd1.
      pose proof (GetServerConfig_trace
        (emit (EvStdout ("Relay starts!" +:+ newline)) (initial_world env1 file)))
        as Ht1.
      pose proof (GetServerConfig_dotenv
        (emit (EvStdout ("Relay starts!" +:+ newline)) (initial_world env2 file)))
        as Hd2.
      pose proof (GetServerConfig_trace
        (emit (EvStdout ("Relay starts!" +:+ newline)) (initial_world env2 file)))
        as Ht2.
      destruct (snd (GetServerConfig (emit _ (initial_world env1 file)))).
      destruct (snd (GetServerConfig (emit _ (initial_world env2 file)))).
      unfold set_environ. simpl in *. congruence.
    - unfold new_server, loaded_config. rewrite !GetServerConfig_fields. simpl.
      rewrite (os_Getenv_after_load_agree (initial_world env1 file)
                 (initial_world env2 file) "ENV") by (by try apply Hagree).
      rewrite (os_Getenv_after_load_agree (initial_world env1 file)
                 (initial_world env2 file) "PORT") by (by try apply Hagree).
      done. }
  destruct Hstart as [env Hstart].
  assert (Hrun : run env1 file sched = set_proc_environ env (run env2 file sched)).
  { unfold run. by rewrite Hstart, exec_set_proc_environ. }
  rewrite Hrun. split_and!; try done. by exists env.
Qed.

Lemma host_is_unused_witness :
  proc_trace (run (<["HOST" := "example.org"]> dev_env) FileAbsent sample_schedule)
  = proc_trace (run dev_env FileAbsent sample_schedule).
Proof.
  apply (host_is_unused (<["HOST" := "example.org"]> dev_env) dev_env
           FileAbsent sample_schedule).
  intros key Hkey. by rewrite lookup_insert_ne.
Defined.

(** ** The accept loop *)



Lemma filter_elem (f : Event → bool) (x : Event) (tr : list Event) :
  x ∈ List.filter f tr ↔ x ∈ tr ∧ f x = true.
Proof. rewrite !list_elem_of_In. apply List.filter_In. Qed.

Lemma go_so_far_listen (p : Proc) (a : string) :
  EvListen a ∈ go_so_far p → a = server_addr p ∧ go_pc p ≠ GPrintf.
Proof.
  unfold go_so_far, accept_logs, accept_log. intros Hin.
  destruct (go_pc p); simpl in Hin;
    try destruct (go_err p) as [e|]; try destruct (decide (e = ErrServerClosed));
    simpl in Hin; elem_cases Hin; by injection Hin as ->.
Qed.

(** X4.  A listener is only ever opened in the development environment
    and only on the configured port; there, the goroutine's first two
    statements print the listening line with that port and enter
    [ListenAndServe] on it. *)
Theorem listen_on_configured_port (env : gmap string string)
    (file : dotenv_file) :
  (∀ sched a, EvListen a ∈ proc_trace (run env file sched) →
     Env (loaded_config env file) = "development" ∧
     a = Port (loaded_config env file)) ∧
  (Env (loaded_config env file) = "development" →
   proc_trace (run env file [LGo; LGo]) =
     proc_trace (main_start env file)
     ++ [listening_line (Port (loaded_config env file));
         EvListen (Port (loaded_config env file))] ∧
   go_pc (run env file [LGo; LGo]) = GServing).
Proof.
  split.
  - intros sched a Hin.
    pose proof (run_inv env file sched) as Hinv.
    assert (Hgo : EvListen a ∈ go_so_far (run env file sched)).
    { rewrite <- (inv_go _ Hinv). by apply filter_elem. }
    apply go_so_far_listen in Hgo as [-> Hpc].
    destruct (inv_go_server _ Hinv Hpc) as [srv Hsrv].
    unfold server_addr. rewrite Hsrv.
    rewrite run_server in Hsrv. unfold new_server in Hsrv.
    case_decide; [|done]. by injection Hsrv as <-.
  - intros Hdev. pose proof (dev_server env file Hdev []) as Hsrv.
    unfold run in *. simpl in Hsrv.
    destruct (main_start_state env file) as (Hst & Hm & Hg & Hd).
    destruct (main_start env file) as [[e f tr] srv done mpc merr gpc gerr st].
    simpl in *. subst. split; [|reflexivity].
    unfold proc_trace, step, step_go, listening_line. simpl.
    by rewrite <- app_assoc.
Qed.

Lemma listen_on_configured_port_witness :
  go_pc (run dev_env FileAbsent [LGo; LGo]) = GServing.
Proof.
  apply (listen_on_configured_port dev_env FileAbsent). vm_compute. reflexivity.
Defined.






(** ** The drain *)




(** ** How a run can end *)

(** X7.  A run that has ended has exit code 0 or 2.  Code 0 means the
    environment is "development", a signal was received and the exit
    record was logged; code 2 means the environment is not "development"
    and the process panicked. *)
Theorem exit_code_meaning (env : gmap string string) (file : dotenv_file)
    (sched : list Label) (code : Z) :
  status (run env file sched) = Exited code →
  (code = 0 ∧ Env (loaded_config env file) = "development" ∧
   EvSignal ∈ proc_trace (run env file sched) ∧
   exited_log ∈ proc_trace (run env file sched)) ∨
  (code = 2 ∧ Env (loaded_config env file) ≠ "development" ∧
   EvPanic ∈ proc_trace (run env file sched)).
Proof.
  intros Hst. pose proof (run_inv env file sched) as Hinv.
  destruct (inv_exit _ Hinv code Hst) as [[-> Hpc]|[-> Hnil]].
  - left. split; [done|].
    assert (Hsome : is_Some (server (run env file sched))).
    { apply (inv_main_server _ Hinv). rewrite Hpc. by repeat constructor. }
    assert (Hdev : Env (loaded_config env file) = "development").
    { rewrite run_server in Hsome. unfold new_server in Hsome.
      case_decide; [done|by destruct Hsome]. }
    split; [done|].
    pose proof (inv_ctrl _ Hinv) as Hview. unfold ctrl_view, ctrl_so_far in Hview.
    rewrite Hpc in Hview. rewrite (inv_woken _ Hinv) in Hview by (by rewrite Hpc).
    assert (Hin : ∀ x, x ∈ List.filter is_ctrl (proc_trace (run env file sched))
                       → x ∈ proc_trace (run env file sched)).
    { intros x Hx. by apply filter_elem in Hx as [? _]. }
    split; apply Hin; rewrite Hview.
    + by left.
    + simpl. do 4 right. apply elem_of_app. right. by left.
  - right. split; [done|]. split.
    + rewrite run_server in Hnil. by apply new_server_None in Hnil.
    + by apply (inv_panic _ Hinv).
Qed.

Lemma exit_code_meaning_witness :
  (0 = 0 ∧ Env (loaded_config dev_env FileAbsent) = "development" ∧
   EvSignal ∈ proc_trace (run dev_env FileAbsent sample_schedule) ∧
   exited_log ∈ proc_trace (run dev_env FileAbsent sample_schedule)) ∨
  (0 = 2 ∧ Env (loaded_config dev_env FileAbsent) ≠ "development" ∧
   EvPanic ∈ proc_trace (run dev_env FileAbsent sample_schedule)).
Proof.
  apply (exit_code_meaning dev_env FileAbsent sample_schedule 0).
  vm_compute. reflexivity.
Defined.

(** ** Without a signal *)

Lemma step_keeps_waiting (l : Label) (p : Proc) :
  is_signal l = false → ctx_done p = false → ctx_done (step l p) = false.
Proof.
  intros Hl Hd. unfold step, step_main, step_go, panic_nil.
  destruct (status p); [|done].
  destruct l; simpl; try done.
  - destruct (main_pc p); simpl; try done; by repeat case_match.
  - destruct (go_pc p); simpl; try done; by repeat case_match.
  - by destruct (go_pc p).
  - by destruct (main_pc p).
Qed.

(** X8.  The controlling path does nothing before a signal arrives: in a
    run whose schedule delivers no signal it is still at its blocking
    receive, no event of the shutdown protocol has happened and the
    process has not exited with code 0, whatever the environment and
    whatever the accept loop did. *)
Theorem no_signal_no_shutdown (env : gmap string string) (file : dotenv_file)
    (sched : list Label) :
  forallb (λ l, negb (is_signal l)) sched = true →
  ctx_done (run env file sched) = false ∧
  main_pc (run env file sched) = MWait ∧
  ctrl_view (proc_trace (run env file sched)) = [] ∧
  status (run env file sched) ≠ Exited 0.
Proof.
  intros Hsched.
  assert (Hdone : ctx_done (run env file sched) = false).
  { unfold run. induction sched as [|l sched IH] using rev_ind.
    - apply main_start_state.
    - rewrite forallb_app in Hsched. apply andb_prop in Hsched as [Hs Hl].
      simpl in Hl. rewrite exec_snoc. apply step_keeps_waiting; [|by apply IH].
      by destruct (is_signal l). }
  pose proof (run_inv env file sched) as Hinv.
  assert (Hpc : main_pc (run env file sched) = MWait).
  { destruct (decide (main_pc (run env file sched) = MWait)) as [|Hne]; [done|].
    pose proof (inv_woken _ Hinv Hne). congruence. }
  split_and!; try done.
  - rewrite (inv_ctrl _ Hinv). unfold ctrl_so_far. by rewrite Hdone, Hpc.
  - intros Hst. destruct (inv_exit _ Hinv 0 Hst) as [[_ ?]|[? _]]; congruence.
Qed.

Lemma no_signal_no_shutdown_witness :
  status (run dev_env FileAbsent
            [LGo; LGo; LMain; LListenReturns (Some bind_error); LGo; LMain])
  ≠ Exited 0.
Proof.
  apply (no_signal_no_shutdown dev_env FileAbsent
           [LGo; LGo; LMain; LListenReturns (Some bind_error); LGo; LMain]).
  reflexivity.
Defined.

(** ** The two paths *)

Lemma step_main_label (l : Label) (p q : Proc) :
  is_main_label l = true → ctrl_state p = ctrl_state q →
  ctrl_state (step l p) = ctrl_state (step l q).
Proof.
  destruct p as [wp srv done mpc merr gpc gerr st].
  destruct q as [wq srv' done' mpc' merr' gpc' gerr' st'].
  unfold ctrl_state. simpl. intros Hl [= -> -> -> -> ->].
  unfold step, step_main, panic_nil. simpl.
  destruct st'; [|done].
  destruct l; simpl; try done.
  - by destruct done'.
  - destruct mpc'; simpl; try done; by repeat case_match.
  - by destruct mpc'.
Qed.

Lemma step_go_label (l : Label) (p : Proc) :
  is_main_label l = false → is_Some (server p) →
  ctrl_state (step l p) = ctrl_state p.
Proof.
  destruct p as [w srv done mpc merr gpc gerr st].
  unfold ctrl_state. simpl. intros Hl [s ->].
  unfold step, step_go. simpl.
  destruct st; [|done].
  destruct l; simpl; try done.
  - destruct gpc; simpl; try done; by repeat case_match.
  - by destruct gpc.
Qed.

(** X9.  In the development environment the accept loop has no
    influence on the controlling path: striking every move of the
    goroutine from a schedule changes neither where the controlling path
    stands, nor the drain result it holds, nor the process status, nor
    the events of the shutdown protocol in the trace. *)
Theorem accept_loop_does_not_interfere (env : gmap string string)
    (file : dotenv_file) (sched : list Label) :
  Env (loaded_config env file) = "development" →
  ctrl_state (run env file sched) =
    ctrl_state (run env file (List.filter is_main_label sched)) ∧
  ctrl_view (proc_trace (run env file sched)) =
    ctrl_view (proc_trace (run env file (List.filter is_main_label sched))).
Proof.
  intros Hdev.
  assert (Hstate : ctrl_state (run env file sched) =
                   ctrl_state (run env file (List.filter is_main_label sched))).
  { unfold run. induction sched as [|l sched IH] using rev_ind; [done|].
    rewrite List.filter_app, exec_snoc. simpl.
    destruct (is_main_label l) eqn:Hl.
    - rewrite exec_snoc. by apply step_main_label.
    - rewrite app_nil_r, <- IH. apply step_go_label; [done|].
      fold (run env file sched). rewrite (dev_server env file Hdev). eauto. }
  split; [done|].
  rewrite (inv_ctrl _ (run_inv env file sched)).
  rewrite (inv_ctrl _ (run_inv env file (List.filter is_main_label sched))).
  unfold ctrl_state in Hstate. injection Hstate as _ _ Hd Hpc Herr.
  unfold ctrl_so_far. by rewrite Hd, Hpc, Herr.
Qed.

Lemma accept_loop_does_not_interfere_witness :
  ctrl_view (proc_trace (run dev_env FileAbsent sample_schedule)) =
  ctrl_view (proc_trace (run dev_env FileAbsent
                           (List.filter is_main_label sample_schedule))).
Proof.
  apply (accept_loop_does_not_interfere dev_env FileAbsent sample_schedule).
  vm_compute. reflexivity.
Defined.

(** ** Output is only ever added *)

Lemma step_trace_prefix (l : Label) (p : Proc) :
  proc_trace p `prefix_of` proc_trace (step l p).
Proof.
  destruct p as [[e f tr] srv done mpc merr gpc gerr st].
  unfold step, step_main, step_go, panic_nil, proc_trace. simpl.
  destruct st; [|done].
  destruct l; simpl.
  - destruct done; simpl; [done|]. by apply prefix_app_r.
  - destruct mpc; simpl; repeat case_match; simpl; try done;
      by apply prefix_app_r.
  - destruct gpc; simpl; repeat case_match; simpl; try done;
      by apply prefix_app_r.
  - destruct gpc; simpl; try done; by apply prefix_app_r.
  - destruct mpc; simpl; try done; by apply prefix_app_r.
Qed.

Lemma occurrences_snoc (e x : Event) (tr : list Event) :
  occurrences e (tr ++ [x]) =
    (occurrences e tr + (if bool_decide (x = e) then 1 else 0))%nat.
Proof.
  unfold occurrences. rewrite List.filter_app, length_app. simpl.
  by destruct (bool_decide (x = e)).
Qed.

(** No statement of [main] after start-up writes the loader's warning. *)
Lemma step_warning_count (l : Label) (p : Proc) :
  occurrences (EvLog (slog_Warn dotenv_warning)) (proc_trace (step l p)) =
  occurrences (EvLog (slog_Warn dotenv_warning)) (proc_trace p).
Proof.
  destruct p as [[e f tr] srv done mpc merr gpc gerr st].
  unfold step, step_main, step_go, panic_nil, proc_trace. simpl.
  destruct st; [|done].
  destruct l; simpl.
  - destruct done; simpl; [done|]. rewrite occurrences_snoc. simpl. lia.
  - destruct mpc; simpl; repeat case_match; simpl; try done;
      rewrite occurrences_snoc; simpl; lia.
  - destruct gpc; simpl; repeat case_match; simpl; try done;
      rewrite occurrences_snoc; simpl; lia.
  - destruct gpc; simpl; try done; rewrite occurrences_snoc; simpl; lia.
  - destruct mpc; simpl; try done; rewrite occurrences_snoc; simpl; lia.
Qed.

(** X10.  Nothing a run has printed or logged is ever taken back: the
    trace of a run is an initial part of the trace of every longer run.
    Every trace therefore starts with the line "Relay starts!", printed
    before the configuration is loaded, followed by the loader's warning
    when the override file could not be loaded; and the warning occurs in
    the trace once when the file could not be loaded and not at all when
    it was. *)
Theorem trace_grows (env : gmap string string) (file : dotenv_file)
    (sched more : list Label) :
  proc_trace (run env file sched)
    `prefix_of` proc_trace (run env file (sched ++ more)) ∧
  (EvStdout ("Relay starts!" +:+ newline) :: load_warnings file)
    `prefix_of` proc_trace (run env file sched) ∧
  occurrences (EvLog (slog_Warn dotenv_warning)) (proc_trace (run env file sched))
    = length (load_warnings file) ∧
  (EvLog (slog_Warn dotenv_warning) ∈ proc_trace (run env file sched) ↔
   ∀ vars, file ≠ FileVars vars).
Proof.
  assert (Hgrow : ∀ s1 s2, proc_trace (run env file s1)
                    `prefix_of` proc_trace (run env file (s1 ++ s2))).
  { intros s1 s2. unfold run.
    induction s2 as [|l s2 IH] using rev_ind.
    - by rewrite app_nil_r.
    - rewrite app_assoc, exec_snoc.
      etrans; [apply IH|apply step_trace_prefix]. }
  assert (Hstart : (EvStdout ("Relay starts!" +:+ newline) :: load_warnings file)
                     `prefix_of` proc_trace (run env file sched)).
  { specialize (Hgrow [] sched). simpl in Hgrow.
    unfold run in Hgrow at 1. simpl in Hgrow.
    by rewrite main_start_trace in Hgrow. }
  assert (Hall : ∀ s, occurrences (EvLog (slog_Warn dotenv_warning))
                        (proc_trace (run env file s))
                      = length (load_warnings file)).
  { intros s. unfold run. induction s as [|l s IH] using rev_ind.
    - simpl. rewrite main_start_trace. by destruct file.
    - by rewrite exec_snoc, step_warning_count. }
  pose proof (Hall sched) as Hcount.
  split; [apply Hgrow|]. split; [exact Hstart|]. split; [exact Hcount|].
  split.
  - intros Hin vars Hfile. subst file. simpl in Hcount.
    unfold occurrences in Hcount. apply length_zero_iff_nil in Hcount.
    assert (Hf : EvLog (slog_Warn dotenv_warning)
                 ∈ List.filter (λ x, bool_decide (x = EvLog (slog_Warn dotenv_warning)))
                     (proc_trace (run env (FileVars vars) sched))).
    { apply list_elem_of_In, List.filter_In. split; [by apply list_elem_of_In|].
      by apply bool_decide_eq_true_2. }
    rewrite Hcount in Hf. by apply elem_of_nil in Hf.
  - intros Hno. destruct Hstart as [rest ->].
    destruct file as [| |vars]; simpl; try (right; by left).
    by destruct (Hno vars).
Qed.

Lemma trace_grows_witness :
  EvLog (slog_Warn dotenv_warning)
  ∈ proc_trace (run prod_env FileMalformed [LSignal; LMain]).
Proof.
  apply (trace_grows prod_env FileMalformed [LSignal; LMain] []).
  intros vars. discriminate.
Defined.
